(** * GooglePlacesSearch: a shallow embedding of [google_places_api_search.py]

    The component queries the Places text-search endpoint page by page,
    filters the places by rating and price level, enriches each accepted
    place with the details endpoint and (optionally) with e-mail addresses
    scraped from the business website, and returns a table.

    The embedding follows the Python source function by function:
    - JSON values and the Python operations the source applies to them
      ([dict.get], truthiness, [or], comparison, subscript, [str.join]);
    - the e-mail regular expression and [re.findall], as the backtracking
      matcher runs them;
    - the three methods [get_place_details],
      [extract_valid_emails_from_website] and [search_results], in a state
      and exception monad over an arbitrary upstream (the HTTP oracle), with
      the trace of requests, sleeps and log lines.

    Numbers: a JSON number is an [int] ([Z]) or a [float].  A finite [float]
    is kept as the rational it denotes ([Q]); Python compares [int] and
    [float] exactly, so on finite numbers the comparisons of the source are
    comparisons of rationals.  [response.json()] also accepts the literals
    [NaN], [Infinity] and [-Infinity]: they are values of the model, and a
    comparison with NaN is false.
    Text: a page is a [string] of 8-bit code points read as Latin-1. *)

From Stdlib Require Import List String Ascii ZArith QArith Lia Bool.
From Stdlib Require Import Sorted Permutation DecimalString OrderedTypeEx.
Import ListNotations.

Close Scope Q_scope.
Set Warnings "-register-all".
Local Open Scope string_scope.
Local Open Scope list_scope.

(** ** Python values *)

Module Py.

(** The value of a Python number: a finite one, an infinity or NaN. *)
Inductive num : Type :=
| Finite (q : Q)
| Infinity (negative : bool)
| NaN.

(** What [response.json()] yields; [JNull] is also Python's [None]. *)
Inductive json : Type :=
| JNull
| JBool (b : bool)
| JInt (z : Z)
| JFloat (x : num)
| JStr (s : string)
| JList (l : list json)
| JDict (d : list (string * json)).

(** An exception: its class and [str(e)]. *)
Record exn : Type := Exn { exn_class : string; exn_str : string }.

Inductive res (A : Type) : Type :=
| Ok (a : A)
| Raise (e : exn).
Arguments Ok {A} a.
Arguments Raise {A} e.

Definition type_name (v : json) : string :=
  match v with
  | JNull => "NoneType"
  | JBool _ => "bool"
  | JInt _ => "int"
  | JFloat _ => "float"
  | JStr _ => "str"
  | JList _ => "list"
  | JDict _ => "dict"
  end.

Definition AttributeError (v : json) (attr : string) : exn :=
  Exn "AttributeError"
      ("'" ++ type_name v ++ "' object has no attribute '" ++ attr ++ "'").

Definition TypeError (msg : string) : exn := Exn "TypeError" msg.
Definition IndexError (msg : string) : exn := Exn "IndexError" msg.
Definition KeyError (msg : string) : exn := Exn "KeyError" msg.

Definition Qltb (a b : Q) : bool :=
  match Qcompare a b with Lt => true | _ => false end.

(** [bool(v)] *)
Definition truthy (v : json) : bool :=
  match v with
  | JNull => false
  | JBool b => b
  | JInt z => negb (Z.eqb z 0)
  | JFloat (Finite q) => negb (Qeq_bool q 0)
  | JFloat _ => true
  | JStr s => negb (String.eqb s "")
  | JList l => match l with [] => false | _ => true end
  | JDict d => match d with [] => false | _ => true end
  end.

(** [a or b] *)
Definition py_or (a b : json) : json := if truthy a then a else b.

(** The binding of key [k] in a dict. *)
Fixpoint lookup (k : string) (d : list (string * json)) : option json :=
  match d with
  | [] => None
  | (k', v) :: d' => if String.eqb k k' then Some v else lookup k d'
  end.

(** [v.get(k, default)]; only a dict has the method. *)
Definition get (v : json) (k : string) (default : json) : res json :=
  match v with
  | JDict d =>
      Ok (match lookup k d with Some x => x | None => default end)
  | _ => Raise (AttributeError v "get")
  end.

(** The number a value denotes in a comparison ([bool] is an [int]). *)
Definition num_of (v : json) : option num :=
  match v with
  | JBool b => Some (Finite (if b then 1%Q else 0%Q))
  | JInt z => Some (Finite (inject_Z z))
  | JFloat x => Some x
  | _ => None
  end.

(** [a < b] on numbers: false as soon as one of them is NaN. *)
Definition ltb (a b : num) : bool :=
  match a, b with
  | Finite x, Finite y => Qltb x y
  | Finite _, Infinity negative => negb negative
  | Infinity negative, Finite _ => negative
  | Infinity negative, Infinity negative' => (negative && negb negative')%bool
  | _, _ => false
  end.

(** [v < r] and [v > r] for a number [r] whose Python type is [rtype]. *)
Definition lt (v : json) (r : num) (rtype : string) : res bool :=
  match num_of v with
  | Some x => Ok (ltb x r)
  | None =>
      Raise (TypeError ("'<' not supported between instances of '"
                          ++ type_name v ++ "' and '" ++ rtype ++ "'"))
  end.

Definition gt (v : json) (r : num) (rtype : string) : res bool :=
  match num_of v with
  | Some x => Ok (ltb r x)
  | None =>
      Raise (TypeError ("'>' not supported between instances of '"
                          ++ type_name v ++ "' and '" ++ rtype ++ "'"))
  end.

Definition chars (s : string) : list json :=
  map (fun c => JStr (String c EmptyString)) (list_ascii_of_string s).

Definition keys (d : list (string * json)) : list json :=
  map (fun kv => JStr (fst kv)) d.

(** [for x in v]: the items a [for] loop visits. *)
Definition iter (v : json) : res (list json) :=
  match v with
  | JList l => Ok l
  | JStr s => Ok (chars s)
  | JDict d => Ok (keys d)
  | _ => Raise (TypeError ("'" ++ type_name v ++ "' object is not iterable"))
  end.

(** [v[0]] *)
Definition item0 (v : json) : res json :=
  match v with
  | JList [] => Raise (IndexError "list index out of range")
  | JList (x :: _) => Ok x
  | JStr EmptyString => Raise (IndexError "string index out of range")
  | JStr (String c _) => Ok (JStr (String c EmptyString))
  | JDict _ => Raise (KeyError "0")
  | _ => Raise (TypeError ("'" ++ type_name v ++ "' object is not subscriptable"))
  end.

Definition decimal (n : nat) : string := NilEmpty.string_of_uint (Nat.to_uint n).

(** The items of a [str.join] argument must all be [str]. *)
Fixpoint str_items (i : nat) (l : list json) : res (list string) :=
  match l with
  | [] => Ok []
  | JStr s :: l' =>
      match str_items (S i) l' with
      | Ok ss => Ok (s :: ss)
      | Raise e => Raise e
      end
  | v :: _ =>
      Raise (TypeError ("sequence item " ++ decimal i
                          ++ ": expected str instance, "
                          ++ type_name v ++ " found"))
  end.

(** [sep.join(v)] *)
Definition join (sep : string) (v : json) : res string :=
  match v with
  | JList l =>
      match str_items 0 l with
      | Ok ss => Ok (String.concat sep ss)
      | Raise e => Raise e
      end
  | JStr s => Ok (String.concat sep (map (fun c => String c EmptyString) (list_ascii_of_string s)))
  | JDict d => Ok (String.concat sep (map fst d))
  | _ => Raise (TypeError "can only join an iterable")
  end.

(** [l[:n]] *)
Definition slice_to {A : Type} (n : Z) (l : list A) : list A :=
  if (0 <=? n)%Z then firstn (Z.to_nat n) l
  else firstn (List.length l - Z.to_nat (- n)) l.

End Py.

(** ** The e-mail pattern and [re.findall]

    [\b[a-zA-Z0-9._%+-]+@[a-zA-Z0-9.-]+\.[a-zA-Z]{2,}\b], matched the way the
    backtracking engine does: every quantifier is greedy and gives back one
    character at a time, and the first success wins. *)

Module Re.

Definition code (c : ascii) : N := N_of_ascii c.

Definition between (lo hi : N) (c : ascii) : bool :=
  (N.leb lo (code c) && N.leb (code c) hi)%bool.

Definition is_char (x c : ascii) : bool := Ascii.eqb x c.

(** [[a-zA-Z]] *)
Definition is_alpha (c : ascii) : bool :=
  (between 97 122 c || between 65 90 c)%bool.

(** [[0-9]] *)
Definition is_digit (c : ascii) : bool := between 48 57 c.

(** [[a-zA-Z0-9._%+-]] *)
Definition is_local (c : ascii) : bool :=
  (is_alpha c || is_digit c || is_char "." c || is_char "_" c
   || is_char "%" c || is_char "+" c || is_char "-" c)%bool.

(** [[a-zA-Z0-9.-]] *)
Definition is_domain (c : ascii) : bool :=
  (is_alpha c || is_digit c || is_char "." c || is_char "-" c)%bool.

(** [\w] on a [str] pattern: alphanumeric in Unicode's sense, or [_].
    Below 256 these are the ASCII ones and the Latin-1 letters and numerals. *)
Definition is_word (c : ascii) : bool :=
  (is_alpha c || is_digit c || is_char "_" c
   || N.eqb (code c) 170 || between 178 179 c || N.eqb (code c) 181
   || between 185 186 c || between 188 190 c
   || between 192 214 c || between 216 246 c || between 248 255 c)%bool.

Definition word_opt (c : option ascii) : bool :=
  match c with Some x => is_word x | None => false end.

(** The character just before offset [i] of [s], [prev] being the one
    before [s] itself. *)
Definition before (prev : option ascii) (s : list ascii) (i : nat) : option ascii :=
  match i with
  | O => prev
  | S j => nth_error s j
  end.

(** [\b] at offset [i]. *)
Definition boundary (prev : option ascii) (s : list ascii) (i : nat) : bool :=
  xorb (word_opt (before prev s i)) (word_opt (nth_error s i)).

(** Length of the longest prefix of [s] inside the class [p]. *)
Fixpoint span (p : ascii -> bool) (s : list ascii) : nat :=
  match s with
  | c :: s' => if p c then S (span p s') else O
  | [] => O
  end.

(** A greedy quantifier with at least [lo] repetitions, [k] being available:
    try the rest of the pattern after [k], [k-1], ..., [lo] of them. *)
Fixpoint greedy (lo : nat) (rest : nat -> option nat) (k : nat) : option nat :=
  if Nat.ltb k lo then None
  else match rest k with
       | Some r => Some r
       | None =>
           match k with
           | O => None
           | S k' => greedy lo rest k'
           end
       end.

Definition at_is (s : list ascii) (i : nat) (c : ascii) : bool :=
  match nth_error s i with
  | Some x => Ascii.eqb x c
  | None => false
  end.

(** One attempt at the start of [s]: the length of the match. *)
Definition match_here (prev : option ascii) (s : list ascii) : option nat :=
  if boundary prev s 0 then
    greedy 1 (fun k =>
      if at_is s k "@" then
        let d0 := S k in
        greedy 1 (fun d =>
          if at_is s (d0 + d) "." then
            let t0 := S (d0 + d) in
            greedy 2 (fun l =>
              if boundary prev s (t0 + l) then Some (t0 + l) else None)
              (span is_alpha (skipn t0 s))
          else None)
          (span is_domain (skipn d0 s))
      else None)
      (span is_local s)
  else None.

(** The scan of [re.findall]: [skip] characters of [s] still belong to the
    match just reported; otherwise an attempt is made at every position, and
    the scan resumes where a match ends. *)
Fixpoint scan (prev : option ascii) (s : list ascii) (skip : nat) : list string :=
  match s with
  | [] => []
  | c :: s' =>
      match skip with
      | S k => scan (Some c) s' k
      | O =>
          match match_here prev s with
          | Some len =>
              string_of_list_ascii (firstn len s) :: scan (Some c) s' (len - 1)
          | None => scan (Some c) s' 0
          end
      end
  end.

Definition findall (text : string) : list string :=
  scan None (list_ascii_of_string text) 0.

End Re.

(** ** The scraper's text processing

    The part of [extract_valid_emails_from_website] that follows the fetch. *)

Module Emails.

(** [c.lower()] for a Latin-1 character. *)
Definition lower_char (c : ascii) : ascii :=
  if (Re.between 65 90 c || Re.between 192 214 c || Re.between 216 222 c)%bool
  then ascii_of_N (Re.code c + 32)
  else c.

Fixpoint lower (s : string) : string :=
  match s with
  | EmptyString => EmptyString
  | String c s' => String (lower_char c) (lower s')
  end.

(** [needle in hay] *)
Fixpoint contains (needle hay : string) : bool :=
  if String.prefix needle hay then true
  else match hay with
       | EmptyString => false
       | String _ hay' => contains needle hay'
       end.

Definition denylist : list string :=
  ["example"; ".png"; ".jpg"; ".jpeg"; ".svg"; ".css"; ".js"].

(** [not any(invalid in email.lower() for invalid in [...])] *)
Definition is_valid (email : string) : bool :=
  negb (existsb (fun invalid => contains invalid (lower email)) denylist).

(** [set(raw_emails)], enumerated in some order; [sorted] below makes the
    order immaterial. *)
Definition py_set (l : list string) : list string := nodup string_dec l.

(** [sorted(l)] on strings: ascending by code points. *)
Fixpoint insert (x : string) (l : list string) : list string :=
  match l with
  | [] => [x]
  | y :: l' => if String.leb x y then x :: l else y :: insert x l'
  end.

Fixpoint sorted (l : list string) : list string :=
  match l with
  | [] => []
  | x :: l' => insert x (sorted l')
  end.

(** The list [valid_emails] after the slice. *)
Definition valid_emails (max_emails : Z) (text : string) : list string :=
  let raw_emails := Re.findall text in
  let valid := filter is_valid (py_set raw_emails) in
  Py.slice_to max_emails (sorted valid).

(** [", ".join(valid_emails) if valid_emails else None] *)
Definition of_text (max_emails : Z) (text : string) : option string :=
  match valid_emails max_emails text with
  | [] => None
  | l => Some (String.concat ", " l)
  end.

End Emails.

(** ** The upstream: requests and responses *)

Module Http.
Import Py.

(** The [params] of the text-search request. *)
Inductive search_params : Type :=
| Query (query key : string)
| PageToken (pagetoken : json) (key : string).

(** The three calls of [requests.get] in the source. *)
Inductive request : Type :=
| TextSearch (params : search_params)
| Details (place_id : json) (fields key : string)
| Website (url : json).

(** A response: [json_body] is what [.json()] returns or raises, and
    [http_error] the message [raise_for_status] builds for an error status. *)
Record Response : Type := {
  status_code : Z;
  http_error : string;
  text : string;
  json_body : res json
}.

(** [requests.get] raises or returns a response. *)
Inductive outcome : Type :=
| Failed (e : exn)
| Received (r : Response).

(** [resp.raise_for_status()]: an error for the statuses 400 to 599. *)
Definition raise_for_status (r : Response) : res unit :=
  if ((400 <=? status_code r) && (status_code r <? 600))%Z
  then Raise (Exn "HTTPError" (http_error r))
  else Ok tt.

End Http.

(** ** The component *)

Import Py Http.

(** The inputs of the component ([self.query], ...). *)
Record Config : Type := {
  query : string;
  max_results : Z;
  min_rating : num;
  max_price_level : Z;
  scrape_emails : bool;
  max_emails : Z;
  api_key : string
}.

(** One dict appended to [all_results]. *)
Record ResultRow : Type := {
  name : json;
  address : json;
  vicinity : json;
  rating : json;
  user_ratings_total : json;
  price_level : json;
  business_status : json;
  open_now : json;
  opening_hours_weekly : string;
  types : string;
  latitude : json;
  longitude : json;
  photo_reference : json;
  place_id : json;
  icon : json;
  plus_code : json;
  phone_number : json;
  website : json;
  emails : option string
}.

(** The three tables [search_results] can return: the frame of
    [all_results], the one-row frame with the column [message] and the
    one-row frame with the column [error]. *)
Inductive DataFrame : Type :=
| Table (rows : list ResultRow)
| Message (msg : string)
| Error (msg : string).

Definition nrows (df : DataFrame) : nat :=
  match df with
  | Table rows => List.length rows
  | Message _ => 1
  | Error _ => 1
  end.

(** The rows that stand for places. *)
Definition result_rows (df : DataFrame) : list ResultRow :=
  match df with
  | Table rows => rows
  | _ => []
  end.

(** What [self.log] receives. *)
Inductive log_line : Type :=
| DetailsFailed (place_id : json) (e : exn)
| ScrapeFailed (url : json) (e : exn)
| Repr (e : exn).

(** What the component does to the outside, in order. *)
Inductive event : Type :=
| EvGet (req : request) (o : outcome)
| EvSleep (seconds : Z)
| EvLog (l : log_line).

Notation "'let?' x := c 'in' k" :=
  (match c with Ok x => k | Raise e => Raise e end)
    (at level 10, x name, c at level 100, k at level 200).

(** The dict literal of the source, its values evaluated in order. *)
Definition build_row (place details rating price_level place_id website : json)
    (email : option string) : res ResultRow :=
  let? name := get place "name" JNull in
  let? address := get place "formatted_address" JNull in
  let? vicinity := get place "vicinity" JNull in
  let? user_ratings_total := get place "user_ratings_total" JNull in
  let? business_status := get place "business_status" JNull in
  let? opening_hours := get place "opening_hours" (JDict []) in
  let? open_now := get opening_hours "open_now" JNull in
  let? detail_hours := get details "opening_hours" (JDict []) in
  let? weekday_text := get detail_hours "weekday_text" (JList []) in
  let? opening_hours_weekly := join "; " weekday_text in
  let? place_types := get place "types" (JList []) in
  let? types := join ", " place_types in
  let? geometry := get place "geometry" (JDict []) in
  let? location := get geometry "location" (JDict []) in
  let? latitude := get location "lat" JNull in
  let? geometry' := get place "geometry" (JDict []) in
  let? location' := get geometry' "location" (JDict []) in
  let? longitude := get location' "lng" JNull in
  let? photos := get place "photos" (JList [JDict []]) in
  let? photo := item0 photos in
  let? photo_reference := get photo "photo_reference" JNull in
  let? icon := get place "icon" JNull in
  let? plus := get place "plus_code" (JDict []) in
  let? plus_code := get plus "global_code" JNull in
  let? formatted := get details "formatted_phone_number" JNull in
  let? phone_number :=
    (if truthy formatted then Ok formatted
     else get details "international_phone_number" JNull) in
  Ok {| name := name; address := address; vicinity := vicinity;
        rating := rating; user_ratings_total := user_ratings_total;
        price_level := price_level; business_status := business_status;
        open_now := open_now; opening_hours_weekly := opening_hours_weekly;
        types := types; latitude := latitude; longitude := longitude;
        photo_reference := photo_reference; place_id := place_id;
        icon := icon; plus_code := plus_code; phone_number := phone_number;
        website := website; emails := email |}.

(** ** The methods, over an arbitrary upstream

    [World] is whatever state the outside has; [http_get] answers a request
    and moves that state.  A computation threads the world, the trace of
    events and [self.status], and either returns or raises. *)

Module GooglePlacesSearch.

Section Component.

Variable World : Type.
Variable http_get : request -> World -> outcome * World.
Variable self : Config.

Record state : Type := {
  world : World;
  trace : list event;
  status : option string
}.

Definition M (A : Type) : Type := state -> res A * state.

Definition ret {A : Type} (a : A) : M A := fun st => (Ok a, st).

Definition bind {A B : Type} (m : M A) (f : A -> M B) : M B :=
  fun st =>
    match m st with
    | (Ok a, st') => f a st'
    | (Raise e, st') => (Raise e, st')
    end.

Notation "x <- c ;; k" := (bind c (fun x => k))
  (at level 61, c at next level, right associativity).

Definition lift {A : Type} (r : res A) : M A := fun st => (r, st).

(** [try: body except Exception as e: handler] *)
Definition try_except {A : Type} (body : M A) (handler : exn -> M A) : M A :=
  fun st =>
    match body st with
    | (Ok a, st') => (Ok a, st')
    | (Raise e, st') => handler e st'
    end.

Definition emit (ev : event) : M unit :=
  fun st =>
    (Ok tt, {| world := world st; trace := trace st ++ [ev]; status := status st |}).

Definition log (l : log_line) : M unit := emit (EvLog l).
Definition sleep (seconds : Z) : M unit := emit (EvSleep seconds).

Definition set_status (s : string) (st : state) : state :=
  {| world := world st; trace := trace st; status := Some s |}.

(** [requests.get(...)] *)
Definition requests_get (req : request) : M Response :=
  fun st =>
    let (o, w) := http_get req (world st) in
    let st' := {| world := w; trace := trace st ++ [EvGet req o]; status := status st |} in
    match o with
    | Failed e => (Raise e, st')
    | Received r => (Ok r, st')
    end.

Definition detail_fields : string :=
  "formatted_phone_number,international_phone_number,website,opening_hours".

Definition get_place_details (place_id : json) : M json :=
  try_except
    (resp <- requests_get (Details place_id detail_fields (api_key self)) ;;
     _ <- lift (raise_for_status resp) ;;
     data <- lift (json_body resp) ;;
     lift (get data "result" (JDict [])))
    (fun e =>
       _ <- log (DetailsFailed place_id e) ;;
       ret (JDict [])).

Definition extract_valid_emails_from_website (url : json) : M (option string) :=
  try_except
    (response <- requests_get (Website url) ;;
     if (negb (status_code response =? 200)%Z || (text response =? ""))%bool
     then ret None
     else ret (Emails.of_text (max_emails self) (text response)))
    (fun e =>
       _ <- log (ScrapeFailed url e) ;;
       ret None).

(** [min(self.max_results or 20, 60)] *)
Definition max_fetch : Z :=
  Z.min (if (max_results self =? 0)%Z then 20 else max_results self) 60.

(** The body of the [for] loop for one place: [None] is [continue], a row
    is the dict appended to [all_results]. *)
Definition place_step (place : json) : M (option ResultRow) :=
  rating <- lift (get place "rating" (JInt 0)) ;;
  price_level <- lift (get place "price_level" (JInt 0)) ;;
  low <- lift (lt rating (min_rating self) "float") ;;
  rejected <- (if low : bool then ret true
               else lift (gt price_level
                           (Finite (inject_Z (max_price_level self))) "int")) ;;
  if rejected : bool then ret None
  else
    place_id <- lift (get place "place_id" JNull) ;;
    details <- get_place_details place_id ;;
    website <- lift (get details "website" JNull) ;;
    email <- (if (scrape_emails self && truthy website)%bool
              then extract_valid_emails_from_website website
              else ret None) ;;
    row <- lift (build_row place details rating price_level place_id website email) ;;
    ret (Some row).

(** [for place in results: ...], with its [continue] and [break]. *)
Fixpoint for_places (places : list json) (all_results : list ResultRow) (fetched : Z)
  : M (list ResultRow * Z) :=
  match places with
  | [] => ret (all_results, fetched)
  | place :: rest =>
      r <- place_step place ;;
      match r with
      | None => for_places rest all_results fetched
      | Some row =>
          let all_results := all_results ++ [row] in
          let fetched := (fetched + 1)%Z in
          if (fetched >=? max_fetch)%Z then ret (all_results, fetched)
          else for_places rest all_results fetched
      end
  end.

(** How one turn of the [while] loop ends. *)
Inductive turn : Type :=
| Break (all_results : list ResultRow)
| Again (params : search_params) (all_results : list ResultRow) (fetched : Z).

(** The body of the [while] loop. *)
Definition page (params : search_params) (all_results : list ResultRow) (fetched : Z)
  : M turn :=
  response <- requests_get (TextSearch params) ;;
  _ <- lift (raise_for_status response) ;;
  data <- lift (json_body response) ;;
  results <- lift (get data "results" (JList [])) ;;
  if negb (truthy results) then ret (Break all_results)
  else
    places <- lift (iter results) ;;
    acc <- for_places places all_results fetched ;;
    let (all_results, fetched) := acc in
    next_page_token <- lift (get data "next_page_token" JNull) ;;
    if (negb (truthy next_page_token) || (fetched >=? max_fetch)%Z)%bool
    then ret (Break all_results)
    else
      _ <- sleep 2 ;;
      ret (Again (PageToken next_page_token (api_key self)) all_results fetched).

(** [while fetched < max_fetch: ...]; [None] when [fuel] turns were not
    enough. *)
Fixpoint while_loop (fuel : nat) (params : search_params)
    (all_results : list ResultRow) (fetched : Z) (st : state) {struct fuel}
  : option (res (list ResultRow) * state) :=
  if (fetched <? max_fetch)%Z then
    match fuel with
    | O => None
    | S fuel' =>
        match page params all_results fetched st with
        | (Raise e, st') => Some (Raise e, st')
        | (Ok (Break rows), st') => Some (Ok rows, st')
        | (Ok (Again params' rows fetched'), st') =>
            while_loop fuel' params' rows fetched' st'
        end
    end
  else Some (Ok all_results, st).

(** The [try] block of [search_results]. *)
Definition search_body (fuel : nat) (st : state) : option (res DataFrame * state) :=
  match while_loop fuel (Query (query self) (api_key self)) [] 0%Z st with
  | None => None
  | Some (Raise e, st') => Some (Raise e, st')
  | Some (Ok all_results, st') =>
      match all_results with
      | [] => Some (Ok (Message "No results found."),
                    set_status "No results found." st')
      | _ => Some (Ok (Table all_results), st')
      end
  end.

(** [search_results]: the [try] block and its [except Exception]. *)
Definition search_results (fuel : nat) (st : state) : option (DataFrame * state) :=
  match search_body fuel st with
  | None => None
  | Some (Ok df, st') => Some (df, st')
  | Some (Raise e, st') =>
      let st1 := set_status ("Error: " ++ exn_str e) st' in
      Some (Error (exn_str e),
            {| world := world st1; trace := trace st1 ++ [EvLog (Repr e)];
               status := status st1 |})
  end.

End Component.

Arguments world {World} s.
Arguments trace {World} s.
Arguments status {World} s.

End GooglePlacesSearch.

(** ** Vocabulary of the properties *)

Module Spec.
Import GooglePlacesSearch.

(** The form the pattern describes between its two [\b]: a local part, [@],
    a domain, a dot and at least two letters. *)
Definition email_shape (e : string) : Prop :=
  exists local dom tld : list ascii,
    list_ascii_of_string e = local ++ "@"%char :: dom ++ "."%char :: tld
    /\ local <> [] /\ forallb Re.is_local local = true
    /\ dom <> [] /\ forallb Re.is_domain dom = true
    /\ 2 <= List.length tld /\ forallb Re.is_alpha tld = true.

(** [e] stands in [text] between two word boundaries. *)
Definition occurs_bounded (text e : string) : Prop :=
  exists pre post : list ascii,
    list_ascii_of_string text = pre ++ list_ascii_of_string e ++ post
    /\ xorb (Re.word_opt (last (map Some pre) None))
            (Re.word_opt (hd_error (list_ascii_of_string e))) = true
    /\ xorb (Re.word_opt (last (map Some (list_ascii_of_string e)) None))
            (Re.word_opt (hd_error post)) = true.

(** [needle] is a substring of [hay]. *)
Definition substring (needle hay : string) : Prop :=
  exists pre post : string, hay = (pre ++ needle ++ post)%string.

(** [e] contains a denylisted substring, case-insensitively. *)
Definition denylisted (e : string) : Prop :=
  exists bad, In bad Emails.denylist /\ substring bad (Emails.lower e).

(** Strictly ascending by code points. *)
Definition ascending (l : list string) : Prop :=
  StronglySorted (fun a b => String.ltb a b = true) l.

(** What the third testable property says of an [emails] field scraped from
    the page [text]: the field is the list of entries joined with a comma
    and a space; there are at most [max_emails] of them; each was matched by
    the pattern in the page; none holds a denylisted substring; they
    ascend. *)
Definition emails_field_ok (max_emails : Z) (text field : string) : Prop :=
  exists entries : list string,
    field = String.concat ", " entries
    /\ (Z.of_nat (List.length entries) <= max_emails)%Z
    /\ Forall (fun e => email_shape e /\ occurs_bounded text e) entries
    /\ Forall (fun e => ~ denylisted e) entries
    /\ ascending entries.

(** *** Rows *)

(** [a < b] and [a <= b] on numbers, as propositions: NaN is neither below
    nor above anything, nor equal to itself. *)
Definition less (a b : num) : Prop :=
  match a, b with
  | Finite x, Finite y => Qlt x y
  | Finite _, Infinity negative => negative = false
  | Infinity negative, Finite _ => negative = true
  | Infinity negative, Infinity negative' => negative = true /\ negative' = false
  | _, _ => False
  end.

Definition le (a b : num) : Prop :=
  match a, b with
  | Finite x, Finite y => Qle x y
  | Finite _, Infinity negative => negative = false
  | Infinity negative, Finite _ => negative = true
  | Infinity negative, Infinity negative' => negative = true \/ negative' = false
  | _, _ => False
  end.

(** [max_price_level] as a number. *)
Definition price_bound (self : Config) : num :=
  Finite (inject_Z (max_price_level self)).

(** The two bounds as the first testable property words them, read on a row:
    [rating >= min_rating] and [price_level <= max_price_level]. *)
Definition within_bounds (self : Config) (row : ResultRow) : Prop :=
  exists r p : num,
    num_of (rating row) = Some r /\ le (min_rating self) r
    /\ num_of (price_level row) = Some p
    /\ le p (price_bound self).

(** The filter as the source applies it, read on a row: neither
    [rating < min_rating] nor [price_level > max_price_level]. *)
Definition not_rejected (self : Config) (row : ResultRow) : Prop :=
  exists r p : num,
    num_of (rating row) = Some r /\ ~ less r (min_rating self)
    /\ num_of (price_level row) = Some p
    /\ ~ less (price_bound self) p.

(** No NaN among the numbers the filter compares for a row. *)
Definition comparable (self : Config) (row : ResultRow) : Prop :=
  rating row <> JFloat NaN /\ price_level row <> JFloat NaN
  /\ min_rating self <> NaN.

(** A place that misses one of the two bounds. *)
Definition violates (self : Config) (place : json) : Prop :=
  exists r p : json,
    get place "rating" (JInt 0) = Ok r
    /\ get place "price_level" (JInt 0) = Ok p
    /\ ((exists x, num_of r = Some x /\ less x (min_rating self))
        \/ (exists x, num_of p = Some x /\ less (price_bound self) x)).

(** The place a row was built from: same identifier, same name, and the
    row's rating and price level are the place's, 0 standing in for a missing
    one. *)
Definition built_from (place : json) (row : ResultRow) : Prop :=
  get place "place_id" JNull = Ok (place_id row)
  /\ get place "name" JNull = Ok (name row)
  /\ get place "rating" (JInt 0) = Ok (rating row)
  /\ get place "price_level" (JInt 0) = Ok (price_level row).

(** *** Traces *)

Definition is_search (ev : event) : bool :=
  match ev with
  | EvGet (TextSearch _) _ => true
  | _ => false
  end.

(** No text-search request among the events. *)
Definition quiet (l : list event) : Prop :=
  Forall (fun ev => is_search ev = false) l.

(** The cursor a page carries: [data.get("next_page_token")] of its body. *)
Definition cursor_of (o : outcome) : option json :=
  match o with
  | Received r =>
      match json_body r with
      | Ok data =>
          match get data "next_page_token" JNull with
          | Ok tok => Some tok
          | Raise _ => None
          end
      | Raise _ => None
      end
  | Failed _ => None
  end.

(** The shape of what the [while] loop adds to the trace when it starts with
    the parameters [p]: nothing but quiet events; or one request with [p] and
    quiet events; or that request, quiet events, the two-second sleep and
    what the loop adds when it goes on with the cursor of the page. *)
Inductive paging (key : string) : search_params -> list event -> Prop :=
| paging_none p l :
    quiet l -> paging key p l
| paging_last p o l :
    quiet l -> paging key p (EvGet (TextSearch p) o :: l)
| paging_next p o mid tok rest :
    quiet mid ->
    cursor_of o = Some tok ->
    truthy tok = true ->
    paging key (PageToken tok key) rest ->
    paging key p (EvGet (TextSearch p) o :: mid ++ EvSleep 2 :: rest).

(** *** Runs *)

(** The state after the outside moved to [w] and the events [evs] happened. *)
Definition record {World : Type} (st : state World) (w : World)
    (evs : list event) : state World :=
  {| world := w; trace := trace st ++ evs; status := status st |}.

(** What the [try] block of [get_place_details] makes of an answer. *)
Definition details_attempt (o : outcome) : res json :=
  match o with
  | Failed e => Raise e
  | Received resp =>
      let? _ := raise_for_status resp in
      let? data := json_body resp in
      get data "result" (JDict [])
  end.

(** What the [try] block of [extract_valid_emails_from_website] makes of an
    answer. *)
Definition scrape_attempt (max_emails : Z) (o : outcome) : res (option string) :=
  match o with
  | Failed e => Raise e
  | Received response =>
      if (negb (status_code response =? 200)%Z || (text response =? ""))%bool
      then Ok None
      else Ok (Emails.of_text max_emails (text response))
  end.

(** What the first four statements of the loop body make of an answer: the
    body of the page and its [results]. *)
Definition page_head (o : outcome) : res (json * json) :=
  match o with
  | Failed e => Raise e
  | Received response =>
      let? _ := raise_for_status response in
      let? data := json_body response in
      let? results := get data "results" (JList []) in
      Ok (data, results)
  end.

(** The rows a turn of the loop hands on. *)
Definition rows_of (t : turn) : list ResultRow :=
  match t with
  | Break rows => rows
  | Again _ rows _ => rows
  end.

(** *** Details *)

(** The ways the details request fails inside [get_place_details]: the
    request raises, the status is one [raise_for_status] rejects, the body is
    not JSON, or the body is not a JSON object. *)
Inductive details_failure : outcome -> exn -> Prop :=
| fails_network e :
    details_failure (Failed e) e
| fails_status resp :
    (400 <= status_code resp < 600)%Z ->
    details_failure (Received resp) (Exn "HTTPError" (http_error resp))
| fails_not_json resp e :
    ~ (400 <= status_code resp < 600)%Z ->
    json_body resp = Raise e ->
    details_failure (Received resp) e
| fails_not_object resp data :
    ~ (400 <= status_code resp < 600)%Z ->
    json_body resp = Ok data ->
    (forall d, data <> JDict d) ->
    details_failure (Received resp) (AttributeError data "get").

(** [details.get("international_phone_number")] *)
Definition international_of (d : list (string * json)) : json :=
  match lookup "international_phone_number" d with
  | Some v => v
  | None => JNull
  end.

(** The phone number of the source: the formatted number when it is there
    and truthy, else what [get] finds for the international one. *)
Definition phone_of (d : list (string * json)) : json :=
  match lookup "formatted_phone_number" d with
  | Some v => if truthy v then v else international_of d
  | None => international_of d
  end.

(** The phone number as the seventh testable property words it: the
    formatted number when the key is present, else the international one
    when present, else absent. *)
Definition phone_as_worded (d : list (string * json)) : json :=
  match lookup "formatted_phone_number" d with
  | Some v => v
  | None => international_of d
  end.

(** A computation that only adds quiet events to the trace. *)
Definition quietly {World A : Type} (m : M World A) : Prop :=
  forall st, exists added,
    trace (snd (m st)) = trace st ++ added /\ quiet added.

End Spec.

(** ** Concrete upstreams

    Small outsides on which the component is run: the world has no state
    and an answer depends on the request alone. *)

Module Scenario.
Import GooglePlacesSearch.

Definition serve (answer : request -> outcome) : request -> unit -> outcome * unit :=
  fun req w => (answer req, w).

Definition st0 : state unit := {| world := tt; trace := []; status := None |}.

Definition json_page (j : json) : outcome :=
  Received {| status_code := 200; http_error := ""; text := ""; json_body := Ok j |}.

Definition html_page (t : string) : outcome :=
  Received {| status_code := 200; http_error := ""; text := t;
              json_body := Raise (Exn "JSONDecodeError" "Expecting value") |}.

Definition server_error : outcome :=
  Received {| status_code := 500;
              http_error := "500 Server Error: Internal Server Error";
              text := ""; json_body := Ok JNull |}.

Definition connection_error : exn :=
  Exn "ConnectionError" "Max retries exceeded".

Definition cfg : Config :=
  {| query := "bakery"; max_results := 20; min_rating := Finite (4 # 1);
     max_price_level := 3; scrape_emails := true; max_emails := 3;
     api_key := "KEY" |}.

(** A place above the rating bound, one below it, one with too high a
    price, and one more that passes. *)
Definition place_a : json :=
  JDict [("name", JStr "A"); ("rating", JFloat (Finite (9 # 2)));
         ("price_level", JInt 2); ("place_id", JStr "pa")].

Definition place_low : json :=
  JDict [("name", JStr "L"); ("rating", JInt 3); ("place_id", JStr "pl")].

Definition place_dear : json :=
  JDict [("name", JStr "X"); ("rating", JInt 5); ("price_level", JInt 4);
         ("place_id", JStr "px")].

Definition place_d : json :=
  JDict [("name", JStr "D"); ("rating", JInt 4); ("place_id", JStr "pd")].

(** A place whose [photos] list is empty. *)
Definition place_nophoto : json :=
  JDict [("name", JStr "N"); ("rating", JInt 5); ("place_id", JStr "pn");
         ("photos", JList [])].

Definition details_a : json :=
  JDict [("website", JStr "http://a.test");
         ("formatted_phone_number", JStr "");
         ("international_phone_number", JStr "+33 1 23")].

Definition site_text : string :=
  "write to Bob@x.com or bob@x.com, not z@example.com or a@b.png.co; q@w.er".

(** Two pages: the first carries a cursor. *)
Definition two_pages (req : request) : outcome :=
  match req with
  | TextSearch (Query _ _) =>
      json_page (JDict [("results", JList [place_a; place_low; place_dear]);
                        ("next_page_token", JStr "tok")])
  | TextSearch (PageToken (JStr "tok") _) =>
      json_page (JDict [("results", JList [place_d])])
  | TextSearch _ => Failed connection_error
  | Details (JStr "pa") _ _ => json_page (JDict [("result", details_a)])
  | Details _ _ _ => server_error
  | Website _ => html_page site_text
  end.

(** The two requests of a run on [two_pages] and what lies between and
    after them. *)
Definition first_request : search_params := Query "bakery" "KEY".
Definition second_request : search_params := PageToken (JStr "tok") "KEY".

Definition between_requests : list event :=
  [EvGet (Details (JStr "pa") detail_fields "KEY")
     (two_pages (Details (JStr "pa") detail_fields "KEY"));
   EvGet (Website (JStr "http://a.test")) (html_page site_text);
   EvSleep 2].

Definition after_requests : list event :=
  [EvGet (Details (JStr "pd") detail_fields "KEY") server_error;
   EvLog (DetailsFailed (JStr "pd")
            (Exn "HTTPError" "500 Server Error: Internal Server Error"))].

(** The primary request fails. *)
Definition down (req : request) : outcome := Failed connection_error.

(** The primary request is answered with an error status. *)
Definition broken (req : request) : outcome := server_error.

(** The search finds nothing. *)
Definition nothing (req : request) : outcome :=
  json_page (JDict [("results", JList []); ("status", JStr "ZERO_RESULTS")]).

(** The details endpoint answers with status 203 and a well-formed body. *)
Definition non_authoritative (req : request) : outcome :=
  match req with
  | TextSearch _ => json_page (JDict [("results", JList [place_a])])
  | Details _ _ _ =>
      Received {| status_code := 203; http_error := ""; text := "";
                  json_body := Ok (JDict [("result", details_a)]) |}
  | Website _ => html_page site_text
  end.

(** The second place of the page has an empty [photos] list. *)
Definition empty_photos (req : request) : outcome :=
  match req with
  | TextSearch _ => json_page (JDict [("results", JList [place_a; place_nophoto])])
  | Details _ _ _ => json_page (JDict [("result", JDict [])])
  | Website _ => html_page ""
  end.

(** A place whose rating is NaN, on a page of its own. *)
Definition place_nan : json :=
  JDict [("name", JStr "Z"); ("rating", JFloat NaN); ("place_id", JStr "pz")].

Definition nan_rating (req : request) : outcome :=
  match req with
  | TextSearch _ => json_page (JDict [("results", JList [place_nan])])
  | Details _ _ _ => json_page (JDict [("result", JDict [])])
  | Website _ => html_page ""
  end.



(** A page with one address in two spellings. *)
Definition two_cases : string := "Sales@Shop.io, sales@shop.io".

Definition cfg_zero : Config :=
  {| query := "bakery"; max_results := 0; min_rating := Finite 0;
     max_price_level := 4; scrape_emails := false; max_emails := 3;
     api_key := "KEY" |}.

Definition cfg_negative_emails : Config :=
  {| query := "bakery"; max_results := 20; min_rating := Finite (4 # 1);
     max_price_level := 3; scrape_emails := true; max_emails := -1;
     api_key := "KEY" |}.

End Scenario.

(** ** Vocabulary of the further properties *)

Module More.
Import GooglePlacesSearch Spec.

Definition is_details (ev : event) : bool :=
  match ev with
  | EvGet (Details _ _ _) _ => true
  | _ => false
  end.

Definition is_website (ev : event) : bool :=
  match ev with
  | EvGet (Website _) _ => true
  | _ => false
  end.

Definition is_sleep (ev : event) : bool :=
  match ev with
  | EvSleep _ => true
  | _ => false
  end.

(** How many events of a kind a trace holds. *)
Definition count (kind : event -> bool) (l : list event) : nat :=
  List.length (filter kind l).

(** The places of a page, as the [for] loop visits them: none when the
    request failed, the body is not usable or [results] is falsy. *)
Definition places_of (o : outcome) : list json :=
  match page_head o with
  | Ok (_, results) =>
      if truthy results then
        match iter results with
        | Ok places => places
        | Raise _ => []
        end
      else []
  | Raise _ => []
  end.

(** The places of all the pages a trace received, in order. *)
Fixpoint received (l : list event) : list json :=
  match l with
  | [] => []
  | EvGet (TextSearch _) o :: l' => places_of o ++ received l'
  | _ :: l' => received l'
  end.

(** [l1] is [l2] with some elements left out. *)
Inductive subseq {A : Type} : list A -> list A -> Prop :=
| subseq_nil l : subseq [] l
| subseq_skip x l1 l2 : subseq l1 l2 -> subseq l1 (x :: l2)
| subseq_take x l1 l2 : subseq l1 l2 -> subseq (x :: l1) (x :: l2).

(** The log line of a details request, if any. *)
Definition details_log (pid : json) (o : outcome) : list event :=
  match details_attempt o with
  | Ok _ => []
  | Raise e => [EvLog (DetailsFailed pid e)]
  end.

(** The log line of a site request, if any. *)
Definition scrape_log (max_emails : Z) (url : json) (o : outcome) : list event :=
  match scrape_attempt max_emails o with
  | Ok _ => []
  | Raise e => [EvLog (ScrapeFailed url e)]
  end.

(** What the component does for one place that gets a row: the details
    request, its log line if it failed, and, when scraping is on and the
    record has a truthy website, the site request and its log line if it
    failed. *)
Inductive row_events (self : Config) (row : ResultRow) : list event -> Prop :=
| row_events_plain o :
    (scrape_emails self && truthy (website row))%bool = false ->
    emails row = None ->
    row_events self row
      (EvGet (Details (place_id row) detail_fields (api_key self)) o
         :: details_log (place_id row) o)
| row_events_scraped o o' :
    (scrape_emails self && truthy (website row))%bool = true ->
    row_events self row
      (EvGet (Details (place_id row) detail_fields (api_key self)) o
         :: details_log (place_id row) o
         ++ EvGet (Website (website row)) o'
         :: scrape_log (max_emails self) (website row) o').

(** The [for] loop over the places of a page that ends without an
    exception: some places are skipped, each of the others gets its row and
    its events, in order, and the loop may stop early. *)
Inductive served (self : Config) : list json -> list ResultRow -> list event -> Prop :=
| served_done places :
    served self places [] []
| served_skip place places rows evs :
    served self places rows evs ->
    served self (place :: places) rows evs
| served_row place places row rows ev evs :
    built_from place row ->
    row_events self row ev ->
    served self places rows evs ->
    served self (place :: places) (row :: rows) (ev ++ evs).

(** A run of the [while] loop that enters the loop and ends without an
    exception, starting with the parameters [p]: the rows it adds and the
    events it adds. *)
Inductive pages (self : Config) : search_params -> list ResultRow -> list event -> Prop :=
| pages_last p o rows evs :
    served self (places_of o) rows evs ->
    pages self p rows (EvGet (TextSearch p) o :: evs)
| pages_next p o rows evs tok rows' rest :
    served self (places_of o) rows evs ->
    cursor_of o = Some tok ->
    truthy tok = true ->
    pages self (PageToken tok (api_key self)) rows' rest ->
    pages self p (rows ++ rows') (EvGet (TextSearch p) o :: evs ++ EvSleep 2 :: rest).

(** A run that ends without an exception: the loop is not entered, or it
    is. *)
Definition run_events (self : Config) (p : search_params)
    (rows : list ResultRow) (evs : list event) : Prop :=
  (rows = [] /\ evs = []) \/ pages self p rows evs.

(** The row of [place]: same identifier and same name. *)
Definition row_of (place : json) (row : ResultRow) : Prop :=
  get place "place_id" JNull = Ok (place_id row)
  /\ get place "name" JNull = Ok (name row).

(** The distinct addresses of a page that pass the denylist, before they
    are sorted and cut. *)
Definition distinct_valid (text : string) : list string :=
  filter Emails.is_valid (Emails.py_set (Re.findall text)).

(** How many entries the slice [[:m]] leaves of [n]. *)
Definition kept (m n : Z) : Z :=
  if (0 <=? m)%Z then Z.min m n else Z.max 0 (n + m).

(** [field.split(", ")]: [cur] is the piece being read. *)
Fixpoint split_from (cur s : string) : list string :=
  match s with
  | EmptyString => [cur]
  | String c s' =>
      match s' with
      | String c' s'' =>
          if (Ascii.eqb c "," && Ascii.eqb c' " ")%bool
          then cur :: split_from EmptyString s''
          else split_from (cur ++ String c EmptyString)%string s'
      | EmptyString => [(cur ++ String c EmptyString)%string]
      end
  end.

Definition split_comma_space (s : string) : list string :=
  split_from EmptyString s.

(** Gaps and matches in turn: a gap, a match, a gap, a match, ... *)
Fixpoint weave (gaps : list (list ascii)) (matches : list string) : list ascii :=
  match gaps, matches with
  | g :: gaps', m :: matches' =>
      g ++ list_ascii_of_string m ++ weave gaps' matches'
  | _, _ => []
  end.

(** No comma in [e]. *)
Definition comma_free (e : string) : Prop :=
  forall c, In c (list_ascii_of_string e) -> c <> ","%char.

(** Any event but a site request. *)
Definition no_site (ev : event) : bool := negb (is_website ev).

(** A computation that only adds events of the kind [ok] to the trace. *)
Definition adds_only {World A : Type} (ok : event -> bool) (m : M World A) : Prop :=
  forall st, exists added,
    trace (snd (m st)) = trace st ++ added
    /\ Forall (fun ev => ok ev = true) added.

(** A computation that leaves [self.status] as it is. *)
Definition keeps_status {World A : Type} (m : M World A) : Prop :=
  forall st, status (snd (m st)) = status st.

End More.

(** ** More concrete upstreams *)

Module ScenarioMore.
Import GooglePlacesSearch.

(** The details endpoint answers with a null record. *)
Definition null_record (req : request) : outcome :=
  match req with
  | TextSearch _ =>
      Scenario.json_page (JDict [("results", JList [Scenario.place_a])])
  | Details _ _ _ => Scenario.json_page (JDict [("result", JNull)])
  | Website _ => Scenario.html_page ""
  end.

(** A place whose rating is present and null. *)
Definition place_null_rating : json :=
  JDict [("name", JStr "R"); ("rating", JNull); ("place_id", JStr "pr")].

(** A place with a passing rating whose price level is a string. *)
Definition place_text_price : json :=
  JDict [("name", JStr "P"); ("rating", JInt 5); ("price_level", JStr "2");
         ("place_id", JStr "pp")].

Definition cfg_negative_results : Config :=
  {| query := "bakery"; max_results := -5; min_rating := Finite 0;
     max_price_level := 4; scrape_emails := true; max_emails := 3;
     api_key := "KEY" |}.

End ScenarioMore.

(** ** Properties of the matcher and of the text processing *)

Section ListFacts.

Context {A : Type}.

Lemma firstn_plus (a b : nat) (s : list A) :
  firstn (a + b) s = firstn a s ++ firstn b (skipn a s).
Proof.
  revert s; induction a as [|a IH]; intros s; simpl.
  - reflexivity.
  - destruct s as [|x s]; simpl.
    + now rewrite firstn_nil.
    + now rewrite IH.
Qed.

Lemma firstn_snoc (k : nat) (s : list A) (c : A) :
  nth_error s k = Some c -> firstn (S k) s = firstn k s ++ [c].
Proof.
  revert s; induction k as [|k IH]; intros [|x s] H; simpl in *; try discriminate.
  - now inversion H.
  - now rewrite <- IH.
Qed.

Lemma nth_error_skipn (a i : nat) (s : list A) :
  nth_error (skipn a s) i = nth_error s (a + i).
Proof.
  revert s; induction a as [|a IH]; intros s; simpl.
  - reflexivity.
  - destruct s as [|x s]; simpl; [now destruct i | apply IH].
Qed.

Lemma firstn_In (n : nat) (l : list A) (x : A) :
  In x (firstn n l) -> In x l.
Proof.
  intros H. rewrite <- (firstn_skipn n l). apply in_or_app. now left.
Qed.

End ListFacts.

Module ReFacts.
Import Re.

Lemma greedy_some (lo : nat) (rest : nat -> option nat) (k r : nat) :
  greedy lo rest k = Some r ->
  exists j, lo <= j <= k /\ rest j = Some r.
Proof.
  induction k as [|k IH]; simpl.
  - destruct (Nat.ltb_spec 0 lo) as [Hlo|Hlo]; [discriminate|].
    destruct (rest 0) eqn:E; [|discriminate].
    intros H'; inversion H'; subst. exists 0. split; [lia | assumption].
  - destruct (Nat.ltb_spec (S k) lo) as [Hlo|Hlo]; [discriminate|].
    destruct (rest (S k)) eqn:E.
    + intros H'; inversion H'; subst. exists (S k). split; [lia | assumption].
    + intros H'. destruct (IH H') as [j [Hj Hr]]. exists j. split; [lia | assumption].
Qed.

Lemma span_firstn (p : ascii -> bool) (s : list ascii) (j : nat) :
  j <= span p s ->
  forallb p (firstn j s) = true /\ List.length (firstn j s) = j.
Proof.
  revert j; induction s as [|c s IH]; intros j Hj; simpl in Hj.
  - assert (j = 0) by lia. subst. now simpl.
  - destruct j as [|j]; [now simpl|].
    destruct (p c) eqn:Hc; [|lia].
    destruct (IH j) as [H1 H2]; [lia|].
    simpl. rewrite Hc, H1, H2. now split.
Qed.

Lemma at_is_nth (s : list ascii) (i : nat) (c : ascii) :
  at_is s i c = true -> nth_error s i = Some c.
Proof.
  unfold at_is. destruct (nth_error s i) as [x|]; [|discriminate].
  intros H. apply Ascii.eqb_eq in H. now subst.
Qed.

(** A successful attempt consumed a local part, [@], a domain, a dot and
    letters, and stands between two word boundaries. *)
Lemma match_here_shape (prev : option ascii) (s : list ascii) (len : nat) :
  match_here prev s = Some len ->
  (exists local dom tld,
      firstn len s = local ++ "@"%char :: dom ++ "."%char :: tld
      /\ local <> [] /\ forallb is_local local = true
      /\ dom <> [] /\ forallb is_domain dom = true
      /\ 2 <= List.length tld /\ forallb is_alpha tld = true)
  /\ List.length (firstn len s) = len
  /\ boundary prev s 0 = true
  /\ boundary prev s len = true.
Proof.
  unfold match_here. destruct (boundary prev s 0) eqn:B0; [|discriminate].
  intros H. apply greedy_some in H. destruct H as [k [Hk H]].
  destruct (at_is s k "@") eqn:Hat; [|discriminate].
  apply greedy_some in H. destruct H as [d [Hd H]].
  destruct (at_is s (S k + d) ".") eqn:Hdot; [|discriminate].
  apply greedy_some in H. destruct H as [l [Hl H]].
  destruct (boundary prev s (S (S k + d) + l)) eqn:B1; [|discriminate].
  inversion H; subst len; clear H.
  apply at_is_nth in Hat, Hdot.
  destruct (span_firstn is_local s k) as [L1 L2]; [lia|].
  destruct (span_firstn is_domain (skipn (S k) s) d) as [D1 D2]; [lia|].
  destruct (span_firstn is_alpha (skipn (S (S k + d)) s) l) as [T1 T2]; [lia|].
  assert (E : firstn (S (S k + d) + l) s
              = firstn k s ++ "@"%char :: firstn d (skipn (S k) s)
                  ++ "."%char :: firstn l (skipn (S (S k + d)) s)).
  { rewrite firstn_plus, (firstn_snoc _ _ _ Hdot), firstn_plus,
      (firstn_snoc _ _ _ Hat).
    rewrite <- !app_assoc. reflexivity. }
  split; [|split; [|split]]; [| |reflexivity|exact B1].
  - exists (firstn k s), (firstn d (skipn (S k) s)),
      (firstn l (skipn (S (S k + d)) s)).
    split; [exact E|].
    repeat split; try assumption; try lia.
    + intros N. rewrite N in L2. simpl in L2. lia.
    + intros N. rewrite N in D2. simpl in D2. lia.
  - transitivity (List.length (firstn (S (S k + d) + l) s)); [reflexivity|].
    rewrite E. rewrite length_app. cbn [List.length].
    rewrite length_app. cbn [List.length].
    rewrite L2, D2, T2. lia.
Qed.

End ReFacts.

Section ScanFacts.
Import Re.

Lemma last_some_snoc (pre : list ascii) (c : ascii) :
  last (map Some (pre ++ [c])) None = Some c.
Proof. rewrite map_app. simpl. apply last_last. Qed.

Lemma hd_error_skipn (n : nat) (s : list ascii) :
  hd_error (skipn n s) = nth_error s n.
Proof.
  rewrite <- (Nat.add_0_r n) at 2. rewrite <- nth_error_skipn.
  now destruct (skipn n s).
Qed.

Lemma before_last (prev : option ascii) (s : list ascii) (n : nat) :
  0 < n -> List.length (firstn n s) = n ->
  before prev s n = last (map Some (firstn n s)) None.
Proof.
  destruct n as [|j]; [lia|]. intros _ Hlen. simpl before.
  destruct (nth_error s j) as [c|] eqn:E.
  - rewrite (firstn_snoc _ _ _ E). now rewrite last_some_snoc.
  - apply nth_error_None in E. rewrite length_firstn in Hlen. lia.
Qed.

(** Every string [re.findall] reports has the form of the pattern and stands
    in the text between two word boundaries. *)
Lemma scan_sound (s pre : list ascii) (skip : nat) (e : string) :
  In e (scan (last (map Some pre) None) s skip) ->
  Spec.email_shape e
  /\ exists pre' post,
       pre ++ s = pre' ++ list_ascii_of_string e ++ post
       /\ xorb (word_opt (last (map Some pre') None))
               (word_opt (hd_error (list_ascii_of_string e))) = true
       /\ xorb (word_opt (last (map Some (list_ascii_of_string e)) None))
               (word_opt (hd_error post)) = true.
Proof.
  revert pre skip; induction s as [|c s IH]; intros pre skip Hin; simpl in Hin.
  - contradiction.
  - assert (Step : forall k, In e (scan (Some c) s k) ->
                     Spec.email_shape e
                     /\ exists pre' post,
                          pre ++ c :: s = pre' ++ list_ascii_of_string e ++ post
                          /\ xorb (word_opt (last (map Some pre') None))
                                  (word_opt (hd_error (list_ascii_of_string e))) = true
                          /\ xorb (word_opt (last (map Some (list_ascii_of_string e)) None))
                                  (word_opt (hd_error post)) = true).
    { intros k Hk. rewrite <- (last_some_snoc pre c) in Hk.
      apply IH in Hk. rewrite <- app_assoc in Hk. exact Hk. }
    destruct skip as [|k]; [|exact (Step _ Hin)].
    destruct (match_here (last (map Some pre) None) (c :: s)) as [len|] eqn:Hm;
      [|exact (Step _ Hin)].
    destruct Hin as [Hhd | Htl]; [|exact (Step _ Htl)].
    subst e. rewrite list_ascii_of_string_of_list_ascii.
    destruct (ReFacts.match_here_shape _ _ _ Hm) as [Hshape [Hlen [B0 B1]]].
    split.
    + unfold Spec.email_shape. rewrite list_ascii_of_string_of_list_ascii.
      exact Hshape.
    + exists pre, (skipn len (c :: s)). split; [|split].
      * now rewrite firstn_skipn.
      * unfold boundary in B0. simpl before in B0.
        destruct Hshape as [lo [dm [tl [E _]]]].
        destruct len as [|len]; [destruct lo; discriminate E|].
        exact B0.
      * unfold boundary in B1. rewrite hd_error_skipn.
        rewrite <- (before_last (last (map Some pre) None) (c :: s) len); [exact B1| |exact Hlen].
        destruct Hshape as [lo [dm [tl [E _]]]].
        destruct len; [destruct lo; discriminate E | lia].
Qed.

Lemma findall_sound (text e : string) :
  In e (findall text) -> Spec.email_shape e /\ Spec.occurs_bounded text e.
Proof.
  unfold findall. intros Hin.
  apply (scan_sound _ [] 0 e) in Hin. destruct Hin as [Hs [pre' [post H]]].
  split; [exact Hs|]. exists pre', post. exact H.
Qed.

End ScanFacts.

Module EmailsFacts.
Import Emails.

(** *** The order on strings *)

Lemma ltb_trans (a b c : string) :
  String.ltb a b = true -> String.ltb b c = true -> String.ltb a c = true.
Proof.
  unfold String.ltb. intros H1 H2.
  destruct (String.compare a b) eqn:E1; try discriminate.
  destruct (String.compare b c) eqn:E2; try discriminate.
  apply String_as_OT.cmp_lt in E1, E2.
  pose proof (String_as_OT.lt_trans _ _ _ E1 E2) as E3.
  apply String_as_OT.cmp_lt in E3. unfold String_as_OT.cmp in E3.
  now rewrite E3.
Qed.

Lemma leb_neq_ltb (a b : string) :
  String.leb a b = true -> a <> b -> String.ltb a b = true.
Proof.
  unfold String.leb, String.ltb. intros H N.
  destruct (String.compare a b) eqn:E; try discriminate; [|reflexivity].
  apply String.compare_eq_iff in E. contradiction.
Qed.

Lemma not_leb_ltb (a b : string) :
  String.leb a b = false -> String.ltb b a = true.
Proof.
  unfold String.leb, String.ltb. rewrite (String.compare_antisym b a).
  destruct (String.compare a b); simpl; congruence.
Qed.

(** *** [sorted] *)

Lemma insert_In (x y : string) (l : list string) :
  In y (insert x l) <-> y = x \/ In y l.
Proof.
  induction l as [|z l IH]; simpl.
  - intuition.
  - destruct (String.leb x z); simpl; rewrite ?IH; intuition.
Qed.

Lemma sorted_In (y : string) (l : list string) :
  In y (sorted l) <-> In y l.
Proof.
  induction l as [|x l IH]; simpl; [tauto|].
  rewrite insert_In, IH. intuition.
Qed.

Lemma insert_ascending (x : string) (l : list string) :
  Spec.ascending l -> ~ In x l -> Spec.ascending (insert x l).
Proof.
  unfold Spec.ascending.
  induction l as [|y l IH]; intros Hs Hn; simpl.
  - constructor; constructor.
  - apply StronglySorted_inv in Hs. destruct Hs as [Hs Hy].
    destruct (String.leb x y) eqn:L.
    + assert (Hxy : String.ltb x y = true).
      { apply leb_neq_ltb; [assumption|]. intros ->. apply Hn. now left. }
      constructor; [constructor; assumption|].
      constructor; [assumption|].
      rewrite Forall_forall in *. intros z Hz.
      apply (ltb_trans _ _ _ Hxy). now apply Hy.
    + constructor.
      * apply IH; [assumption|]. intros Hx. apply Hn. now right.
      * rewrite Forall_forall in *. intros z Hz.
        apply insert_In in Hz. destruct Hz as [->|Hz].
        -- now apply not_leb_ltb.
        -- now apply Hy.
Qed.

(** Sorting a list without duplicates gives a strictly ascending list. *)
Lemma sorted_ascending (l : list string) :
  NoDup l -> Spec.ascending (sorted l).
Proof.
  induction 1 as [|x l Hx Hl IH]; simpl.
  - constructor.
  - apply insert_ascending; [assumption|]. now rewrite sorted_In.
Qed.

(** *** The slice *)

Lemma firstn_ascending (n : nat) (l : list string) :
  Spec.ascending l -> Spec.ascending (firstn n l).
Proof.
  unfold Spec.ascending. revert l; induction n as [|n IH]; intros l Hs; simpl.
  - constructor.
  - destruct l as [|x l]; [constructor|].
    apply StronglySorted_inv in Hs. destruct Hs as [Hs Hx].
    constructor; [now apply IH|].
    rewrite Forall_forall in *. intros z Hz. apply Hx.
    exact (firstn_In _ _ _ Hz).
Qed.

Lemma slice_to_In {A : Type} (n : Z) (l : list A) (x : A) :
  In x (Py.slice_to n l) -> In x l.
Proof. unfold Py.slice_to. destruct (0 <=? n)%Z; apply firstn_In. Qed.

Lemma slice_to_ascending (n : Z) (l : list string) :
  Spec.ascending l -> Spec.ascending (Py.slice_to n l).
Proof. unfold Py.slice_to. destruct (0 <=? n)%Z; apply firstn_ascending. Qed.

Lemma slice_to_length {A : Type} (n : Z) (l : list A) :
  (0 <= n)%Z -> (Z.of_nat (List.length (Py.slice_to n l)) <= n)%Z.
Proof.
  intros Hn. unfold Py.slice_to.
  destruct (Z.leb_spec 0 n); [|lia].
  pose proof (firstn_le_length (Z.to_nat n) l). lia.
Qed.

(** *** The denylist *)

Lemma prefix_app (n h : string) :
  String.prefix n h = true -> exists post, h = (n ++ post)%string.
Proof.
  revert h; induction n as [|a n IH]; intros h H.
  - exists h. reflexivity.
  - destruct h as [|b h]; simpl in H; [discriminate|].
    destruct (ascii_dec a b) as [Hab|Hab]; [subst b|discriminate].
    destruct (IH _ H) as [post Hp]. exists post. now rewrite Hp.
Qed.

Lemma app_prefix (n post : string) : String.prefix n (n ++ post) = true.
Proof.
  induction n as [|a n IH]; simpl.
  - now destruct post.
  - destruct (ascii_dec a a); [assumption | congruence].
Qed.

Lemma contains_nil (n : string) : contains n "" = String.prefix n "".
Proof.
  change (contains n "") with (if String.prefix n "" then true else false).
  now destruct (String.prefix n "").
Qed.

Lemma contains_cons (n : string) (b : ascii) (h : string) :
  contains n (String b h)
  = if String.prefix n (String b h) then true else contains n h.
Proof. reflexivity. Qed.

Lemma contains_substring (n h : string) :
  contains n h = true <-> Spec.substring n h.
Proof.
  unfold Spec.substring. split.
  - induction h as [|b h IH].
    + rewrite contains_nil. intros P.
      apply prefix_app in P. destruct P as [post P].
      exists ""%string, post. exact P.
    + rewrite contains_cons.
      destruct (String.prefix n (String b h)) eqn:P.
      * intros _. apply prefix_app in P. destruct P as [post P].
        exists ""%string, post. exact P.
      * intros H. destruct (IH H) as [pre [post Hh]].
        exists (String b pre), post. now rewrite Hh.
  - intros [pre [post Hh]]. subst h. induction pre as [|b pre IH].
    + pose proof (app_prefix n post) as P. simpl append.
      destruct (n ++ post)%string.
      * now rewrite contains_nil.
      * now rewrite contains_cons, P.
    + simpl append. rewrite contains_cons.
      destruct (String.prefix n (String b (pre ++ n ++ post))); [reflexivity|].
      exact IH.
Qed.

Lemma is_valid_spec (e : string) :
  is_valid e = true <-> ~ Spec.denylisted e.
Proof.
  unfold is_valid, Spec.denylisted. rewrite negb_true_iff. split.
  - intros H [bad [Hin Hsub]]. apply contains_substring in Hsub.
    assert (existsb (fun invalid => contains invalid (lower e)) denylist = true)
      by (apply existsb_exists; now exists bad).
    congruence.
  - intros H. destruct (existsb _ denylist) eqn:E; [|reflexivity].
    exfalso. apply H. apply existsb_exists in E. destruct E as [bad [Hin Hc]].
    exists bad. split; [assumption|]. now apply contains_substring.
Qed.

(** *** The list the scraper joins *)

Lemma valid_emails_spec (max_emails : Z) (text : string) :
  let l := valid_emails max_emails text in
  Forall (fun e => In e (Re.findall text)) l
  /\ Forall (fun e => ~ Spec.denylisted e) l
  /\ Spec.ascending l
  /\ ((0 <= max_emails)%Z -> (Z.of_nat (List.length l) <= max_emails)%Z).
Proof.
  unfold valid_emails. cbv zeta.
  assert (Hin : forall e,
             In e (Py.slice_to max_emails
                     (sorted (filter is_valid (py_set (Re.findall text))))) ->
             In e (Re.findall text) /\ is_valid e = true).
  { intros e He. apply slice_to_In, sorted_In, filter_In in He.
    destruct He as [He Hv]. unfold py_set in He. apply nodup_In in He.
    now split. }
  split; [|split; [|split]].
  - apply Forall_forall. intros e He. now apply Hin.
  - apply Forall_forall. intros e He. apply is_valid_spec. now apply Hin.
  - apply slice_to_ascending, sorted_ascending, NoDup_filter.
    unfold py_set. apply NoDup_nodup.
  - apply slice_to_length.
Qed.

(** What [of_text] returns, when it returns a string, is the joined list. *)
Lemma of_text_some (max_emails : Z) (text field : string) :
  of_text max_emails text = Some field ->
  valid_emails max_emails text <> []
  /\ field = String.concat ", " (valid_emails max_emails text).
Proof.
  unfold of_text. destruct (valid_emails max_emails text) eqn:E; [discriminate|].
  intros H; inversion H. split; [discriminate | reflexivity].
Qed.

(** With a cap that is not negative, the field [of_text] returns is as the
    property words it. *)
Lemma of_text_ok (max_emails : Z) (text field : string) :
  (0 <= max_emails)%Z ->
  of_text max_emails text = Some field ->
  Spec.emails_field_ok max_emails text field.
Proof.
  intros Hmax H. destruct (of_text_some _ _ _ H) as [_ ->].
  destruct (valid_emails_spec max_emails text) as [Hin [Hden [Hasc Hlen]]].
  exists (valid_emails max_emails text).
  split; [reflexivity|]. split; [now apply Hlen|].
  split; [|now split].
  rewrite Forall_forall in *. intros e He.
  now apply findall_sound, Hin.
Qed.

End EmailsFacts.

(** ** Properties of the Python operations *)

Module PyFacts.

Lemma get_dict (v : json) (k : string) (default x : json) :
  get v k default = Ok x -> exists d, v = JDict d.
Proof. destruct v; simpl; try discriminate. intros _. now eexists. Qed.

Lemma get_total (d : list (string * json)) (k : string) (default : json) :
  exists x, get (JDict d) k default = Ok x.
Proof. simpl. now eexists. Qed.

Lemma Qltb_false (a b : Q) : Qltb a b = false -> Qle b a.
Proof.
  unfold Qltb, Qcompare. intros H. apply Qnot_lt_le. intros L.
  unfold Qlt in L. apply Z.compare_lt_iff in L. rewrite L in H. discriminate.
Qed.

Lemma Qltb_true (a b : Q) : Qltb a b = true <-> Qlt a b.
Proof.
  unfold Qltb, Qcompare, Qlt. rewrite <- Z.compare_lt_iff.
  destruct (Qnum a * QDen b ?= Qnum b * QDen a)%Z; split; congruence.
Qed.

(** The comparison of the source and its reading as a proposition. *)
Lemma ltb_less (a b : num) : ltb a b = true <-> Spec.less a b.
Proof.
  destruct a as [x|n|], b as [y|n'|]; cbn; try (split; [discriminate | tauto]).
  - apply Qltb_true.
  - destruct n'; cbn; split; congruence.
  - destruct n; cbn; split; congruence.
  - destruct n, n'; cbn; split; (congruence || tauto || intuition congruence).
Qed.

Lemma ltb_not_less (a b : num) : ltb a b = false <-> ~ Spec.less a b.
Proof.
  rewrite <- ltb_less. destruct (ltb a b); split; congruence.
Qed.

(** Without NaN the order is total: what is not below is at least. *)
Lemma not_less_le (a b : num) :
  ~ Spec.less a b -> a <> NaN -> b <> NaN -> Spec.le b a.
Proof.
  destruct a as [x|n|], b as [y|n'|]; cbn; intros H Ha Hb; try congruence.
  - now apply Qnot_lt_le.
  - destruct n'; [reflexivity | congruence].
  - destruct n; [congruence | reflexivity].
  - destruct n, n'; tauto || (exfalso; apply H; tauto).
Qed.

(** What is at least is not below. *)
Lemma le_not_less (a b : num) : Spec.le b a -> ~ Spec.less a b.
Proof.
  destruct a as [x|n|], b as [y|n'|]; cbn; try tauto.
  - intros Hle Hlt. exact (Qlt_not_le _ _ Hlt Hle).
  - congruence.
  - congruence.
  - intros [H|H] [H1 H2]; congruence.
Qed.

Lemma lt_false (v : json) (r : num) (ty : string) :
  lt v r ty = Ok false -> exists x, num_of v = Some x /\ ~ Spec.less x r.
Proof.
  unfold lt. destruct (num_of v) as [x|]; [|discriminate].
  intros H. inversion H. exists x. split; [reflexivity | now apply ltb_not_less].
Qed.

Lemma gt_false (v : json) (r : num) (ty : string) :
  gt v r ty = Ok false -> exists x, num_of v = Some x /\ ~ Spec.less r x.
Proof.
  unfold gt. destruct (num_of v) as [x|]; [|discriminate].
  intros H. inversion H. exists x. split; [reflexivity | now apply ltb_not_less].
Qed.

(** Only the float NaN denotes NaN. *)
Lemma num_of_nan (v : json) : num_of v = Some NaN -> v = JFloat NaN.
Proof.
  destruct v as [|b|z|x|s|l|d]; cbn; try discriminate.
  intros H. inversion H. reflexivity.
Qed.

End PyFacts.

(** ** Properties of the row *)

Module RowFacts.

Ltac invert_steps H :=
  repeat match type of H with
         | context [match ?x with Ok _ => _ | Raise _ => _ end] =>
             let E := fresh "E" in destruct x eqn:E; try discriminate H
         end.

(** The fields of a row that was built, in terms of its sources. *)
Lemma build_row_fields (place details r p pid site : json)
    (email : option string) (row : ResultRow) :
  build_row place details r p pid site email = Ok row ->
  rating row = r
  /\ price_level row = p
  /\ place_id row = pid
  /\ website row = site
  /\ emails row = email
  /\ (exists hours weekday_text,
        get details "opening_hours" (JDict []) = Ok hours
        /\ get hours "weekday_text" (JList []) = Ok weekday_text
        /\ join "; " weekday_text = Ok (opening_hours_weekly row))
  /\ exists formatted international,
       get details "formatted_phone_number" JNull = Ok formatted
       /\ get details "international_phone_number" JNull = Ok international
       /\ phone_number row = py_or formatted international.
Proof.
  unfold build_row. intros H. invert_steps H.
  inversion H; subst row; clear H. cbn.
  do 5 (split; [reflexivity|]).
  split.
  { match goal with
    | E1 : get details "opening_hours" (JDict []) = Ok ?h,
      E2 : get ?h "weekday_text" (JList []) = Ok ?t,
      E3 : join "; " ?t = Ok ?s |- _ =>
        exists h, t; repeat split; first [reflexivity | assumption]
    end. }
  match goal with
  | E : get details "formatted_phone_number" JNull = Ok ?f,
    E' : (if truthy ?f then _ else _) = Ok ?a |- _ =>
      destruct (PyFacts.get_dict _ _ _ _ E) as [d Hd]; subst details;
      destruct (PyFacts.get_total d "international_phone_number" JNull) as [i Hi];
      exists f, i; split; [reflexivity | split; [exact Hi|]];
      unfold py_or; rewrite Hi in E'; destruct (truthy f); congruence
  end.
Qed.

(** A place whose [photos] list is empty has no row: the dict literal
    raises, at the subscript if not before. *)
Lemma build_row_empty_photos (place details r p pid site : json)
    (email : option string) :
  get place "photos" (JList [JDict []]) = Ok (JList []) ->
  exists e, build_row place details r p pid site email = Raise e.
Proof.
  intros Hphotos. unfold build_row. rewrite Hphotos. cbn [item0].
  repeat match goal with
         | |- context [match ?x with Ok _ => _ | Raise _ => _ end] =>
             destruct x
         end;
    eexists; reflexivity.
Qed.

End RowFacts.

(** ** Properties of the detail record *)

Module DetailsFacts.
Import Spec.

Lemma details_failure_attempt (o : outcome) (e : exn) :
  details_failure o e -> details_attempt o = Raise e.
Proof.
  intros H. destruct H as [e | resp Hs | resp e Hs Hb | resp data Hs Hb Hd];
    cbn [details_attempt]; unfold raise_for_status.
  - reflexivity.
  - destruct (Z.leb_spec 400 (status_code resp));
      destruct (Z.ltb_spec (status_code resp) 600); cbn; try lia. reflexivity.
  - destruct (Z.leb_spec 400 (status_code resp));
      destruct (Z.ltb_spec (status_code resp) 600); cbn; try lia;
      now rewrite Hb.
  - assert (G : get data "result" (JDict []) = Raise (AttributeError data "get")).
    { destruct data; try reflexivity. exfalso. now apply (Hd d). }
    destruct (Z.leb_spec 400 (status_code resp));
      destruct (Z.ltb_spec (status_code resp) 600); cbn; try lia;
      now rewrite Hb, G.
Qed.

Lemma phone_of_or (d : list (string * json)) (f i : json) :
  get (JDict d) "formatted_phone_number" JNull = Ok f ->
  get (JDict d) "international_phone_number" JNull = Ok i ->
  py_or f i = phone_of d.
Proof.
  cbn [get]. intros Hf Hi. inversion Hf; inversion Hi; subst.
  unfold phone_of, international_of, py_or.
  destruct (lookup "formatted_phone_number" d); reflexivity.
Qed.

End DetailsFacts.

(** ** Properties of paging traces *)

Module TraceFacts.
Import Spec.

Lemma quiet_no_search (l pre post : list event) (ev : event) :
  quiet l -> l = pre ++ ev :: post -> is_search ev = true -> False.
Proof.
  unfold quiet. intros Q -> S. apply Forall_app in Q. destruct Q as [_ Q].
  inversion Q; subst. congruence.
Qed.

(** A search event that follows a quiet prefix lies beyond it. *)
Lemma split_after_quiet (c d pre b : list event) (x : event) :
  quiet c -> is_search x = true ->
  pre ++ x :: b = c ++ d ->
  exists pre', pre = c ++ pre' /\ d = pre' ++ x :: b.
Proof.
  revert pre; induction c as [|y c IH]; intros pre Q S E.
  - exists pre. now split.
  - inversion Q as [|? ? Hy Qc]; subst.
    destruct pre as [|z pre]; cbn in E; inversion E; subst.
    + congruence.
    + destruct (IH pre Qc S H1) as [pre' [-> ->]]. exists pre'. now split.
Qed.


Lemma paging_app_quiet (key : string) (p : search_params) (l l2 : list event) :
  paging key p l -> quiet l2 -> paging key p (l ++ l2).
Proof.
  intros Hp Q. induction Hp.
  - apply paging_none. now apply Forall_app.
  - cbn. apply paging_last. now apply Forall_app.
  - cbn. rewrite <- app_assoc. cbn. eapply paging_next; eassumption.
Qed.


End TraceFacts.

(** ** Properties of the three methods *)

Section ComponentFacts.
Import GooglePlacesSearch Spec.

Variable World : Type.
Variable http_get : request -> World -> outcome * World.
Variable self : Config.

Local Abbreviation state := (state World).
Local Abbreviation M := (M World).
Local Abbreviation get_place_details := (get_place_details World http_get self).
Local Abbreviation extract_valid_emails_from_website :=
  (extract_valid_emails_from_website World http_get self).
Local Abbreviation place_step := (place_step World http_get self).
Local Abbreviation for_places := (for_places World http_get self).
Local Abbreviation page := (page World http_get self).
Local Abbreviation while_loop := (while_loop World http_get self).
Local Abbreviation search_body := (search_body World http_get self).
Local Abbreviation search_results := (search_results World http_get self).
Local Abbreviation max_fetch := (max_fetch self).

(** Unfolding the monad. *)
Ltac run :=
  unfold GooglePlacesSearch.try_except, GooglePlacesSearch.bind,
    GooglePlacesSearch.lift, GooglePlacesSearch.ret,
    GooglePlacesSearch.log, GooglePlacesSearch.sleep,
    GooglePlacesSearch.emit, GooglePlacesSearch.requests_get in *.

(** *** The details request *)

Lemma get_place_details_run (pid : json) (st : state) :
  let req := Details pid detail_fields (api_key self) in
  get_place_details pid st =
    let (o, w) := http_get req (world st) in
    match details_attempt o with
    | Ok v => (Ok v, record st w [EvGet req o])
    | Raise e =>
        (Ok (JDict []), record st w [EvGet req o; EvLog (DetailsFailed pid e)])
    end.
Proof.
  cbv zeta. unfold GooglePlacesSearch.get_place_details. run.
  destruct (http_get (Details pid detail_fields (api_key self)) (world st))
    as [o w].
  destruct o as [e|resp]; cbn [details_attempt].
  - unfold record. cbn. now rewrite <- app_assoc.
  - destruct (raise_for_status resp) as [[]|e].
    + destruct (json_body resp) as [data|e].
      * destruct (get data "result" (JDict [])) as [v|e]; unfold record; cbn;
          [reflexivity | now rewrite <- app_assoc].
      * unfold record; cbn. now rewrite <- app_assoc.
    + unfold record; cbn. now rewrite <- app_assoc.
Qed.

(** [get_place_details] returns, whatever the upstream does. *)
Lemma get_place_details_returns (pid : json) (st : state) :
  exists v st', get_place_details pid st = (Ok v, st').
Proof.
  pose proof (get_place_details_run pid st) as H. cbv zeta in H.
  destruct (http_get _ (world st)) as [o w].
  destruct (details_attempt o); rewrite H; eauto.
Qed.

(** *** The scraper *)

Lemma extract_run (url : json) (st : state) :
  extract_valid_emails_from_website url st =
    let (o, w) := http_get (Website url) (world st) in
    match scrape_attempt (max_emails self) o with
    | Ok v => (Ok v, record st w [EvGet (Website url) o])
    | Raise e =>
        (Ok None, record st w [EvGet (Website url) o; EvLog (ScrapeFailed url e)])
    end.
Proof.
  unfold GooglePlacesSearch.extract_valid_emails_from_website. run.
  destruct (http_get (Website url) (world st)) as [o w].
  destruct o as [e|resp]; cbn [scrape_attempt].
  - unfold record. cbn. now rewrite <- app_assoc.
  - destruct (negb (status_code resp =? 200)%Z || (text resp =? ""))%bool;
      reflexivity.
Qed.

(** *** One place *)

(** How a row came about. *)
Lemma place_step_inv (place : json) (st st' : state) (row : ResultRow) :
  place_step place st = (Ok (Some row), st') ->
  exists r p pid details site email st1,
    get place "rating" (JInt 0) = Ok r
    /\ get place "price_level" (JInt 0) = Ok p
    /\ lt r (min_rating self) "float" = Ok false
    /\ gt p (Finite (inject_Z (max_price_level self))) "int" = Ok false
    /\ get place "place_id" JNull = Ok pid
    /\ get_place_details pid st = (Ok details, st1)
    /\ get details "website" JNull = Ok site
    /\ (if (scrape_emails self && truthy site)%bool
        then extract_valid_emails_from_website site st1
        else (Ok None, st1)) = (Ok email, st')
    /\ build_row place details r p pid site email = Ok row.
Proof.
  unfold GooglePlacesSearch.place_step. run. intros H.
  match goal with |- ?G => set (Claim := G) end.
  repeat match type of H with
         | context [match ?x with _ => _ end] =>
             let E := fresh "E" in destruct x eqn:E; try discriminate H
         end.
  inversion H; subst; clear H.
  match goal with
  | E : (if ?b then _ else _) _ = (Ok false, ?s) |- _ =>
      destruct b; inversion E; subst; clear E
  end.
  match goal with
  | E : (if ?b then _ else _) _ = (Ok ?em, _) |- _ =>
      unfold Claim; do 7 eexists; repeat split; try eassumption;
      destruct b; exact E
  end.
Qed.

(** A place whose [photos] list is empty never yields a row. *)
Lemma place_step_empty_photos (place : json) (st st' : state) (row : ResultRow) :
  get place "photos" (JList [JDict []]) = Ok (JList []) ->
  place_step place st <> (Ok (Some row), st').
Proof.
  intros Hphotos H.
  destruct (place_step_inv _ _ _ _ H)
    as [r [p [pid [details [site [email [st1 H']]]]]]].
  destruct H' as [_ [_ [_ [_ [_ [_ [_ [_ Hrow]]]]]]]].
  destruct (RowFacts.build_row_empty_photos place details r p pid site email Hphotos)
    as [e He].
  congruence.
Qed.

(** *** Quiet computations *)

Lemma quiet_app (l1 l2 : list event) : quiet l1 -> quiet l2 -> quiet (l1 ++ l2).
Proof. unfold quiet. intros. apply Forall_app. now split. Qed.

Lemma quietly_ret {A : Type} (a : A) : quietly (ret World a).
Proof. intros st. exists []. cbn. rewrite app_nil_r. split; [reflexivity | constructor]. Qed.

Lemma quietly_lift {A : Type} (r : res A) : quietly (lift World r).
Proof. intros st. exists []. cbn. rewrite app_nil_r. split; [reflexivity | constructor]. Qed.

Lemma quietly_bind {A B : Type} (m : M A) (f : A -> M B) :
  quietly m -> (forall a, quietly (f a)) -> quietly (bind World m f).
Proof.
  intros Hm Hf st. unfold GooglePlacesSearch.bind.
  destruct (Hm st) as [l1 [E1 Q1]].
  destruct (m st) as [[a|e] st1]; cbn in E1.
  - destruct (Hf a st1) as [l2 [E2 Q2]]. exists (l1 ++ l2).
    rewrite E2, E1, app_assoc. split; [reflexivity | now apply quiet_app].
  - exists l1. now split.
Qed.

Lemma quietly_try {A : Type} (m : M A) (h : exn -> M A) :
  quietly m -> (forall e, quietly (h e)) -> quietly (try_except World m h).
Proof.
  intros Hm Hh st. unfold GooglePlacesSearch.try_except.
  destruct (Hm st) as [l1 [E1 Q1]].
  destruct (m st) as [[a|e] st1]; cbn in E1.
  - exists l1. now split.
  - destruct (Hh e st1) as [l2 [E2 Q2]]. exists (l1 ++ l2).
    rewrite E2, E1, app_assoc. split; [reflexivity | now apply quiet_app].
Qed.

Lemma quietly_emit (ev : event) :
  is_search ev = false -> quietly (emit World ev).
Proof.
  intros H st. exists [ev]. cbn. split; [reflexivity|].
  constructor; [assumption | constructor].
Qed.

Lemma quietly_get (req : request) :
  (forall o, is_search (EvGet req o) = false) ->
  quietly (requests_get World http_get req).
Proof.
  intros H st. unfold GooglePlacesSearch.requests_get.
  destruct (http_get req (world st)) as [o w].
  exists [EvGet req o]. split.
  - now destruct o.
  - constructor; [apply H | constructor].
Qed.

Lemma quietly_details (pid : json) : quietly (get_place_details pid).
Proof.
  unfold GooglePlacesSearch.get_place_details.
  apply quietly_try.
  - apply quietly_bind; [now apply quietly_get|]. intros resp.
    apply quietly_bind; [apply quietly_lift|]. intros _.
    apply quietly_bind; [apply quietly_lift|]. intros data.
    apply quietly_lift.
  - intros e. apply quietly_bind; [now apply quietly_emit|]. intros _.
    apply quietly_ret.
Qed.

Lemma quietly_extract (url : json) :
  quietly (extract_valid_emails_from_website url).
Proof.
  unfold GooglePlacesSearch.extract_valid_emails_from_website.
  apply quietly_try.
  - apply quietly_bind; [now apply quietly_get|]. intros resp.
    destruct (negb (status_code resp =? 200)%Z || (text resp =? ""))%bool;
      apply quietly_ret.
  - intros e. apply quietly_bind; [now apply quietly_emit|]. intros _.
    apply quietly_ret.
Qed.

Lemma quietly_place_step (place : json) : quietly (place_step place).
Proof.
  unfold GooglePlacesSearch.place_step.
  apply quietly_bind; [apply quietly_lift|]. intros r.
  apply quietly_bind; [apply quietly_lift|]. intros p.
  apply quietly_bind; [apply quietly_lift|]. intros low.
  apply quietly_bind;
    [destruct low; [apply quietly_ret | apply quietly_lift]|].
  intros rejected. destruct rejected; [apply quietly_ret|].
  apply quietly_bind; [apply quietly_lift|]. intros pid.
  apply quietly_bind; [apply quietly_details|]. intros details.
  apply quietly_bind; [apply quietly_lift|]. intros site.
  apply quietly_bind;
    [destruct (scrape_emails self && truthy site)%bool;
     [apply quietly_extract | apply quietly_ret]|].
  intros email.
  apply quietly_bind; [apply quietly_lift|]. intros row.
  apply quietly_ret.
Qed.

Lemma quietly_for_places (places : list json) (acc : list ResultRow) (fetched : Z) :
  quietly (for_places places acc fetched).
Proof.
  revert acc fetched; induction places as [|place rest IH]; intros acc fetched;
    cbn [GooglePlacesSearch.for_places].
  - apply quietly_ret.
  - apply quietly_bind; [apply quietly_place_step|].
    intros [row|]; [|apply IH].
    destruct (fetched + 1 >=? max_fetch)%Z; [apply quietly_ret | apply IH].
Qed.

(** *** The two loops, unfolded *)

Lemma for_places_cons (place : json) (rest : list json) (acc : list ResultRow)
    (fetched : Z) (st : state) :
  for_places (place :: rest) acc fetched st =
    match place_step place st with
    | (Raise e, st1) => (Raise e, st1)
    | (Ok None, st1) => for_places rest acc fetched st1
    | (Ok (Some row), st1) =>
        if (fetched + 1 >=? max_fetch)%Z
        then (Ok (acc ++ [row], (fetched + 1)%Z), st1)
        else for_places rest (acc ++ [row]) (fetched + 1)%Z st1
    end.
Proof.
  cbn [GooglePlacesSearch.for_places]. unfold GooglePlacesSearch.bind.
  destruct (place_step place st) as [[[row|]|e] st1]; try reflexivity.
  now destruct (fetched + 1 >=? max_fetch)%Z.
Qed.

Lemma page_run (params : search_params) (acc : list ResultRow) (fetched : Z)
    (st : state) :
  page params acc fetched st =
    let (o, w) := http_get (TextSearch params) (world st) in
    let st1 := record st w [EvGet (TextSearch params) o] in
    match page_head o with
    | Raise e => (Raise e, st1)
    | Ok (data, results) =>
        if negb (truthy results) then (Ok (Break acc), st1)
        else
          match iter results with
          | Raise e => (Raise e, st1)
          | Ok places =>
              match for_places places acc fetched st1 with
              | (Raise e, st2) => (Raise e, st2)
              | (Ok (rows, f), st2) =>
                  match get data "next_page_token" JNull with
                  | Raise e => (Raise e, st2)
                  | Ok tok =>
                      if (negb (truthy tok) || (f >=? max_fetch)%Z)%bool
                      then (Ok (Break rows), st2)
                      else (Ok (Again (PageToken tok (api_key self)) rows f),
                            record st2 (world st2) [EvSleep 2])
                  end
              end
          end
    end.
Proof.
  unfold GooglePlacesSearch.page. run.
  destruct (http_get (TextSearch params) (world st)) as [o w].
  destruct o as [e|response]; cbn [page_head]; [reflexivity|].
  destruct (raise_for_status response) as [[]|e]; [|reflexivity].
  destruct (json_body response) as [data|e]; [|reflexivity].
  destruct (get data "results" (JList [])) as [results|e]; [|reflexivity].
  destruct (negb (truthy results)); [reflexivity|].
  destruct (iter results) as [places|e]; [|reflexivity].
  unfold record; cbn.
  destruct (GooglePlacesSearch.for_places _ _ _ _ _ _ _) as [[[rows f]|e] st2];
    [|reflexivity].
  destruct (get data "next_page_token" JNull) as [tok|e]; [|reflexivity].
  destruct (negb (truthy tok) || (f >=? max_fetch)%Z)%bool; reflexivity.
Qed.

Lemma while_loop_run (fuel : nat) (params : search_params)
    (acc : list ResultRow) (fetched : Z) (st : state) :
  while_loop fuel params acc fetched st =
    if (fetched <? max_fetch)%Z then
      match fuel with
      | O => None
      | S fuel' =>
          match page params acc fetched st with
          | (Raise e, st') => Some (Raise e, st')
          | (Ok (Break rows), st') => Some (Ok rows, st')
          | (Ok (Again params' rows fetched'), st') =>
              while_loop fuel' params' rows fetched' st'
          end
      end
    else Some (Ok acc, st).
Proof. destruct fuel; reflexivity. Qed.

(** *** What holds of every row the place step builds holds of every row
    of the table *)

Section RowInvariant.

Variable P : ResultRow -> Prop.
Hypothesis step_ok :
  forall place st row st', place_step place st = (Ok (Some row), st') -> P row.

Lemma for_places_rows (places : list json) :
  forall acc fetched st rows f st',
    Forall P acc ->
    for_places places acc fetched st = (Ok (rows, f), st') ->
    Forall P rows.
Proof.
  induction places as [|place rest IH]; intros acc fetched st rows f st' Hacc H.
  - cbn in H. inversion H; subst. exact Hacc.
  - rewrite for_places_cons in H.
    destruct (place_step place st) as [[[row|]|e] st1] eqn:E; [| |discriminate].
    + assert (Hacc' : Forall P (acc ++ [row])).
      { apply Forall_app. split; [exact Hacc|].
        constructor; [exact (step_ok _ _ _ _ E) | constructor]. }
      destruct (fetched + 1 >=? max_fetch)%Z.
      * inversion H; subst. exact Hacc'.
      * exact (IH _ _ _ _ _ _ Hacc' H).
    + exact (IH _ _ _ _ _ _ Hacc H).
Qed.

Lemma page_rows (params : search_params) (acc : list ResultRow) (fetched : Z)
    (st st' : state) (t : turn) :
  Forall P acc ->
  page params acc fetched st = (Ok t, st') ->
  Forall P (rows_of t).
Proof.
  intros Hacc. rewrite page_run.
  destruct (http_get (TextSearch params) (world st)) as [o w]. cbv zeta.
  destruct (page_head o) as [[data results]|e]; [|discriminate].
  destruct (negb (truthy results)).
  { intros H; inversion H; subst. exact Hacc. }
  destruct (iter results) as [places|e]; [|discriminate].
  destruct (for_places places acc fetched _) as [[[rows f]|e] st2] eqn:E;
    [|discriminate].
  pose proof (for_places_rows _ _ _ _ _ _ _ Hacc E) as Hrows.
  destruct (get data "next_page_token" JNull) as [tok|e]; [|discriminate].
  destruct (negb (truthy tok) || (f >=? max_fetch)%Z)%bool;
    intros H; inversion H; subst; exact Hrows.
Qed.

Lemma while_loop_rows (fuel : nat) :
  forall params acc fetched st rows st',
    Forall P acc ->
    while_loop fuel params acc fetched st = Some (Ok rows, st') ->
    Forall P rows.
Proof.
  induction fuel as [|fuel IH]; intros params acc fetched st rows st' Hacc;
    rewrite while_loop_run.
  - destruct (fetched <? max_fetch)%Z; [discriminate|].
    intros H; inversion H; subst. exact Hacc.
  - destruct (fetched <? max_fetch)%Z.
    + destruct (page params acc fetched st) as [[[rows1|p1 rows1 f1]|e] st1] eqn:E.
      * intros H; inversion H; subst.
        exact (page_rows _ _ _ _ _ _ Hacc E).
      * apply IH. exact (page_rows _ _ _ _ _ _ Hacc E).
      * discriminate.
    + intros H; inversion H; subst. exact Hacc.
Qed.

Lemma search_results_rows (fuel : nat) (st st' : state) (df : DataFrame) :
  search_results fuel st = Some (df, st') ->
  Forall P (result_rows df).
Proof.
  unfold GooglePlacesSearch.search_results, GooglePlacesSearch.search_body.
  destruct (while_loop fuel _ [] 0%Z st) as [[[rows|e] st1]|] eqn:E;
    [| |discriminate].
  - pose proof (while_loop_rows _ _ _ _ _ _ _ (Forall_nil P) E) as Hrows.
    destruct rows; intros H; inversion H; subst; cbn; [constructor | exact Hrows].
  - intros H; inversion H; subst. constructor.
Qed.

End RowInvariant.

(** *** The counter and the cap *)

Lemma for_places_count (places : list json) :
  forall acc fetched st rows f st',
    fetched = Z.of_nat (List.length acc) ->
    (fetched < max_fetch)%Z ->
    for_places places acc fetched st = (Ok (rows, f), st') ->
    f = Z.of_nat (List.length rows) /\ (f <= max_fetch)%Z.
Proof.
  induction places as [|place rest IH]; intros acc fetched st rows f st' Hf Hlt H.
  - cbn in H. inversion H; subst. split; [reflexivity | lia].
  - rewrite for_places_cons in H.
    destruct (place_step place st) as [[[row|]|e] st1]; [| |discriminate].
    + assert (Hf' : (fetched + 1)%Z = Z.of_nat (List.length (acc ++ [row]))).
      { rewrite length_app. cbn. lia. }
      destruct (Z.geb_spec (fetched + 1) max_fetch).
      * inversion H; subst. split; [exact Hf' | lia].
      * eapply IH; [exact Hf' | lia | exact H].
    + exact (IH _ _ _ _ _ _ Hf Hlt H).
Qed.

Lemma page_count (params : search_params) (acc : list ResultRow) (fetched : Z)
    (st st' : state) (t : turn) :
  fetched = Z.of_nat (List.length acc) ->
  (fetched < max_fetch)%Z ->
  page params acc fetched st = (Ok t, st') ->
  match t with
  | Break rows => (Z.of_nat (List.length rows) <= max_fetch)%Z
  | Again _ rows f => f = Z.of_nat (List.length rows) /\ (f < max_fetch)%Z
  end.
Proof.
  intros Hf Hlt. rewrite page_run.
  destruct (http_get (TextSearch params) (world st)) as [o w]. cbv zeta.
  destruct (page_head o) as [[data results]|e]; [|discriminate].
  destruct (negb (truthy results)).
  { intros H; inversion H; subst. lia. }
  destruct (iter results) as [places|e]; [|discriminate].
  destruct (for_places places acc fetched _) as [[[rows f]|e] st2] eqn:E;
    [|discriminate].
  destruct (for_places_count _ _ _ _ _ _ _ Hf Hlt E) as [Hrows Hle].
  destruct (get data "next_page_token" JNull) as [tok|e]; [|discriminate].
  destruct (negb (truthy tok)); cbn [orb].
  { intros H; inversion H; subst. lia. }
  destruct (Z.geb_spec f max_fetch) as [Hge|Hlt2]; intros H; inversion H; subst.
  - lia.
  - split; [reflexivity | lia].
Qed.

Lemma while_loop_count (fuel : nat) :
  forall params acc fetched st rows st',
    fetched = Z.of_nat (List.length acc) ->
    (fetched <= Z.max 0 max_fetch)%Z ->
    while_loop fuel params acc fetched st = Some (Ok rows, st') ->
    (Z.of_nat (List.length rows) <= Z.max 0 max_fetch)%Z.
Proof.
  induction fuel as [|fuel IH]; intros params acc fetched st rows st' Hf Hle;
    rewrite while_loop_run.
  - destruct (fetched <? max_fetch)%Z; [discriminate|].
    intros H; inversion H; subst. exact Hle.
  - destruct (Z.ltb_spec fetched max_fetch) as [Hlt|Hge].
    + destruct (page params acc fetched st) as [[[rows1|p1 rows1 f1]|e] st1] eqn:E;
        [| |discriminate]; pose proof (page_count _ _ _ _ _ _ Hf Hlt E) as Hc.
      * intros H; inversion H; subst. lia.
      * destruct Hc as [Hf1 Hlt1]. apply IH; [exact Hf1 | lia].
    + intros H; inversion H; subst. exact Hle.
Qed.

(** *** The trace of the loop *)

Lemma page_head_ok (o : outcome) (data results : json) :
  page_head o = Ok (data, results) ->
  exists resp,
    o = Received resp /\ raise_for_status resp = Ok tt
    /\ json_body resp = Ok data
    /\ get data "results" (JList []) = Ok results.
Proof.
  destruct o as [e|resp]; cbn [page_head]; [discriminate|].
  destruct (raise_for_status resp) as [[]|e] eqn:Es; [|discriminate].
  destruct (json_body resp) as [d|e] eqn:Eb; [|discriminate].
  destruct (get d "results" (JList [])) as [r|e] eqn:E; [|discriminate].
  intros H; inversion H; subst. exists resp. now repeat split.
Qed.

Lemma page_trace (params : search_params) (acc : list ResultRow) (fetched : Z)
    (st : state) :
  let (o, _) := http_get (TextSearch params) (world st) in
  exists added,
    trace (snd (page params acc fetched st))
    = trace st ++ EvGet (TextSearch params) o :: added
    /\ match fst (page params acc fetched st) with
       | Ok (Again p' _ _) =>
           exists mid tok,
             added = mid ++ [EvSleep 2] /\ quiet mid
             /\ cursor_of o = Some tok /\ truthy tok = true
             /\ p' = PageToken tok (api_key self)
       | _ => quiet added
       end.
Proof.
  rewrite page_run.
  destruct (http_get (TextSearch params) (world st)) as [o w]. cbv zeta.
  assert (Nil : forall T (x : T), trace (record st w [EvGet (TextSearch params) o])
                = trace st ++ EvGet (TextSearch params) o :: [] /\ quiet [])
    by (intros; split; [reflexivity | constructor]).
  destruct (page_head o) as [[data results]|e] eqn:Hh;
    [|exists []; now apply (Nil unit tt)].
  destruct (negb (truthy results)); [exists []; now apply (Nil unit tt)|].
  destruct (iter results) as [places|e]; [|exists []; now apply (Nil unit tt)].
  destruct (quietly_for_places places acc fetched
              (record st w [EvGet (TextSearch params) o])) as [added [Ht Q]].
  destruct (for_places places acc fetched _) as [[[rows f]|e] st2];
    cbn [snd] in Ht.
  - destruct (get data "next_page_token" JNull) as [tok|e] eqn:Htok.
    + destruct (truthy tok) eqn:Htruthy; cbn [negb orb].
      * destruct (f >=? max_fetch)%Z; cbn [fst snd].
        -- exists added. split; [|exact Q].
           rewrite Ht. cbn. now rewrite <- app_assoc.
        -- exists (added ++ [EvSleep 2]). split.
           ++ cbn. rewrite Ht. cbn. now rewrite <- !app_assoc.
           ++ exists added, tok. repeat split; try assumption.
              destruct (page_head_ok _ _ _ Hh) as [resp [-> [_ [Hb _]]]].
              cbn. now rewrite Hb, Htok.
      * exists added. cbn [fst snd]. split; [|exact Q].
        rewrite Ht. cbn. now rewrite <- app_assoc.
    + exists added. cbn [fst snd]. split; [|exact Q].
      rewrite Ht. cbn. now rewrite <- app_assoc.
  - exists added. cbn [fst snd]. split; [|exact Q].
    rewrite Ht. cbn. now rewrite <- app_assoc.
Qed.

(** What the loop adds to the trace is a paging trace. *)
Lemma while_loop_paging (fuel : nat) :
  forall params acc fetched st r st',
    while_loop fuel params acc fetched st = Some (r, st') ->
    exists added,
      trace st' = trace st ++ added /\ paging (api_key self) params added.
Proof.
  induction fuel as [|fuel IH]; intros params acc fetched st r st';
    rewrite while_loop_run.
  - destruct (fetched <? max_fetch)%Z; [discriminate|].
    intros H; inversion H; subst. exists []. rewrite app_nil_r.
    split; [reflexivity | apply paging_none; constructor].
  - destruct (fetched <? max_fetch)%Z.
    + pose proof (page_trace params acc fetched st) as Hp.
      destruct (http_get (TextSearch params) (world st)) as [o w].
      destruct Hp as [added [Ht Hshape]].
      destruct (page params acc fetched st) as [[[rows1|p1 rows1 f1]|e] st1];
        cbn [fst snd] in *.
      * intros H; inversion H; subst. eexists. split; [exact Ht|].
        now apply paging_last.
      * intros H. destruct (IH _ _ _ _ _ _ H) as [rest [Ht' Hrest]].
        destruct Hshape as [mid [tok [-> [Q [Hc [Htr ->]]]]]].
        exists (EvGet (TextSearch params) o :: mid ++ EvSleep 2 :: rest).
        split.
        -- rewrite Ht', Ht. rewrite <- !app_assoc. cbn.
           now rewrite <- !app_assoc.
        -- now apply (paging_next _ _ _ _ tok).
      * intros H; inversion H; subst. eexists. split; [exact Ht|].
        now apply paging_last.
    + intros H; inversion H; subst. exists []. rewrite app_nil_r.
      split; [reflexivity | apply paging_none; constructor].
Qed.

Lemma search_results_paging (fuel : nat) (st st' : state) (df : DataFrame) :
  search_results fuel st = Some (df, st') ->
  exists added,
    trace st' = trace st ++ added
    /\ paging (api_key self) (Query (query self) (api_key self)) added.
Proof.
  unfold GooglePlacesSearch.search_results, GooglePlacesSearch.search_body.
  destruct (while_loop fuel _ [] 0%Z st) as [[[rows|e] st1]|] eqn:E;
    [| |discriminate];
    destruct (while_loop_paging _ _ _ _ _ _ _ E) as [added [Ht Hp]].
  - destruct rows; intros H; inversion H; subst; exists added; now split.
  - intros H; inversion H; subst. exists (added ++ [EvLog (Repr e)]).
    split.
    + cbn. rewrite Ht. now rewrite <- app_assoc.
    + apply TraceFacts.paging_app_quiet; [exact Hp|].
      constructor; [reflexivity | constructor].
Qed.


(** *** More fuel does not change a run that ended *)

Lemma while_loop_more_fuel (fuel : nat) :
  forall params acc fetched st out,
    while_loop fuel params acc fetched st = Some out ->
    forall extra, while_loop (fuel + extra) params acc fetched st = Some out.
Proof.
  induction fuel as [|fuel IH]; intros params acc fetched st out H extra;
    rewrite while_loop_run in H; rewrite while_loop_run.
  - destruct (fetched <? max_fetch)%Z; [discriminate | exact H].
  - destruct (fetched <? max_fetch)%Z; [|exact H].
    cbn [Nat.add].
    destruct (page params acc fetched st) as [[[rows1|p1 rows1 f1]|e] st1];
      try exact H.
    now apply IH.
Qed.

Lemma search_results_more_fuel (fuel : nat) (st : state) (out : DataFrame * state) :
  search_results fuel st = Some out ->
  forall extra, search_results (fuel + extra) st = Some out.
Proof.
  unfold GooglePlacesSearch.search_results, GooglePlacesSearch.search_body.
  intros H extra.
  destruct (while_loop fuel _ [] 0%Z st) as [r|] eqn:E; [|discriminate].
  now rewrite (while_loop_more_fuel _ _ _ _ _ _ E extra).
Qed.

End ComponentFacts.

(** ** Counting and ordering events *)

Module MoreFacts.
Import GooglePlacesSearch Spec More.

Lemma build_row_name (place details r p pid site : json)
    (email : option string) (row : ResultRow) :
  build_row place details r p pid site email = Ok row ->
  get place "name" JNull = Ok (name row).
Proof.
  unfold build_row. intros H.
  destruct (get place "name" JNull) as [n|e] eqn:En; [|discriminate].
  RowFacts.invert_steps H. inversion H; subst row. reflexivity.
Qed.

Lemma count_app (kind : event -> bool) (l1 l2 : list event) :
  count kind (l1 ++ l2) = count kind l1 + count kind l2.
Proof. unfold count. now rewrite filter_app, length_app. Qed.

Lemma count_cons (kind : event -> bool) (ev : event) (l : list event) :
  count kind (ev :: l) = (if kind ev then 1 else 0) + count kind l.
Proof. unfold count. cbn. now destruct (kind ev). Qed.

Lemma count_details_log (kind : event -> bool) (pid : json) (o : outcome) :
  (forall l, kind (EvLog l) = false) -> count kind (details_log pid o) = 0.
Proof.
  intros H. unfold details_log. destruct (details_attempt o); [reflexivity|].
  rewrite count_cons, H. reflexivity.
Qed.

Lemma count_scrape_log (kind : event -> bool) (m : Z) (url : json) (o : outcome) :
  (forall l, kind (EvLog l) = false) -> count kind (scrape_log m url o) = 0.
Proof.
  intros H. unfold scrape_log. destruct (scrape_attempt m o); [reflexivity|].
  rewrite count_cons, H. reflexivity.
Qed.

(** The events of a row: one details request, at most one site request, no
    text search and no sleep. *)
Lemma row_events_counts (self : Config) (row : ResultRow) (ev : list event) :
  row_events self row ev ->
  count is_details ev = 1
  /\ count is_website ev
     = (if (scrape_emails self && truthy (website row))%bool then 1 else 0)
  /\ count is_search ev = 0
  /\ count is_sleep ev = 0
  /\ received ev = [].
Proof.
  intros H. destruct H as [o Hc He | o o' Hc]; rewrite Hc.
  - rewrite !count_cons, !count_details_log by reflexivity. cbn.
    repeat split. unfold details_log. now destruct (details_attempt o).
  - rewrite !count_cons, !count_app, !count_cons,
      !count_details_log, !count_scrape_log by reflexivity. cbn.
    repeat split.
    unfold details_log, scrape_log.
    destruct (details_attempt o); destruct (scrape_attempt _ o'); reflexivity.
Qed.

Lemma received_app (l1 l2 : list event) :
  received (l1 ++ l2) = received l1 ++ received l2.
Proof.
  induction l1 as [|ev l1 IH]; [reflexivity|].
  destruct ev as [[params| |] o| |]; cbn; rewrite IH; try reflexivity.
  now rewrite app_assoc.
Qed.

Lemma subseq_refl {A : Type} (l : list A) : subseq l l.
Proof. induction l; [apply subseq_nil | now apply subseq_take]. Qed.

Lemma subseq_app {A : Type} (a b c d : list A) :
  subseq a b -> subseq c d -> subseq (a ++ c) (b ++ d).
Proof.
  intros H; induction H; intros Hc; cbn.
  - induction l; [assumption | now apply subseq_skip].
  - apply subseq_skip. now apply IHsubseq.
  - apply subseq_take. now apply IHsubseq.
Qed.

Lemma subseq_In {A : Type} (l1 l2 : list A) (x : A) :
  subseq l1 l2 -> In x l1 -> In x l2.
Proof.
  induction 1 as [l | y l1 l2 H IH | y l1 l2 H IH]; cbn.
  - intros [].
  - intros Hin. right. now apply IH.
  - intros [-> | Hin]; [now left | right; now apply IH].
Qed.

Lemma Forall2_In_r {A B : Type} (R : A -> B -> Prop) (l1 : list A) (l2 : list B)
    (y : B) :
  Forall2 R l1 l2 -> In y l2 -> exists x, In x l1 /\ R x y.
Proof.
  induction 1 as [|a b l1 l2 Hab H IH]; cbn.
  - intros [].
  - intros [-> | Hin].
    + exists a. split; [now left | exact Hab].
    + destruct (IH Hin) as [x [Hx Hr]]. exists x. split; [now right | exact Hr].
Qed.

Lemma built_from_row_of (place : json) (row : ResultRow) :
  built_from place row -> row_of place row.
Proof. intros [Hid [Hname _]]. now split. Qed.

(** What the loop over a page served, counted and put in order. *)
Lemma served_facts (self : Config) (places : list json) (rows : list ResultRow)
    (evs : list event) :
  served self places rows evs ->
  count is_details evs = List.length rows
  /\ count is_website evs
     = List.length (filter (fun row => (scrape_emails self && truthy (website row))%bool) rows)
  /\ count is_search evs = 0
  /\ count is_sleep evs = 0
  /\ received evs = []
  /\ exists chosen, subseq chosen places /\ Forall2 built_from chosen rows.
Proof.
  induction 1 as [places | place places rows evs H IH
                 | place places row rows ev evs Hfrom Hev H IH].
  - repeat split; try reflexivity. exists []. split; constructor.
  - destruct IH as [H1 [H2 [H3 [H4 [H5 [chosen [Hs Hf]]]]]]].
    repeat split; try assumption. exists chosen.
    split; [now apply subseq_skip | assumption].
  - destruct IH as [H1 [H2 [H3 [H4 [H5 [chosen [Hs Hf]]]]]]].
    destruct (row_events_counts _ _ _ Hev) as [E1 [E2 [E3 [E4 E5]]]].
    rewrite !count_app, received_app, E1, E2, E3, E4, E5, H1, H2, H3, H4, H5.
    cbn [filter List.length].
    repeat split.
    + destruct (scrape_emails self && truthy (website row))%bool; reflexivity.
    + exists (place :: chosen). split; [now apply subseq_take|].
      constructor; assumption.
Qed.

(** What a run of the loop did, counted and put in order. *)
Lemma pages_facts (self : Config) (p : search_params) (rows : list ResultRow)
    (evs : list event) :
  pages self p rows evs ->
  count is_details evs = List.length rows
  /\ count is_website evs
     = List.length (filter (fun row => (scrape_emails self && truthy (website row))%bool) rows)
  /\ S (count is_sleep evs) = count is_search evs
  /\ exists chosen, subseq chosen (received evs) /\ Forall2 built_from chosen rows.
Proof.
  induction 1 as [p o rows evs Hs
                 | p o rows evs tok rows' rest Hs Hc Ht H IH].
  - destruct (served_facts _ _ _ _ Hs) as [H1 [H2 [H3 [H4 [H5 [chosen [Hsub Hf]]]]]]].
    rewrite !count_cons. cbn. rewrite H1, H2, H3, H4, H5, app_nil_r.
    repeat split; try lia. exists chosen. now split.
  - destruct (served_facts _ _ _ _ Hs) as [H1 [H2 [H3 [H4 [H5 [chosen [Hsub Hf]]]]]]].
    destruct IH as [I1 [I2 [I3 [chosen' [Hsub' Hf']]]]].
    rewrite !count_cons, !count_app, !count_cons. cbn.
    rewrite received_app. cbn.
    rewrite H1, H2, H3, H4, H5, I1, I2, <- I3, filter_app, !length_app.
    repeat split; try lia.
    exists (chosen ++ chosen'). split.
    + now apply subseq_app.
    + now apply Forall2_app.
Qed.

Lemma run_events_facts (self : Config) (p : search_params) (rows : list ResultRow)
    (evs : list event) :
  run_events self p rows evs ->
  count is_details evs = List.length rows
  /\ count is_website evs
     = List.length (filter (fun row => (scrape_emails self && truthy (website row))%bool) rows)
  /\ count is_sleep evs = Nat.pred (count is_search evs)
  /\ (rows <> [] -> 1 <= count is_search evs)
  /\ exists chosen, subseq chosen (received evs) /\ Forall2 built_from chosen rows.
Proof.
  intros [[-> ->] | H].
  - repeat split; try reflexivity; try congruence. exists []. split; constructor.
  - destruct (pages_facts _ _ _ _ H) as [H1 [H2 [H3 H4]]].
    repeat split; try assumption; lia.
Qed.

(** Every text-search request of a paging trace is the first event and
    carries the parameters of the trace, or comes later and carries a truthy
    page token and the key. *)
Lemma paging_requests (key : string) (p : search_params) (l : list event) :
  paging key p l ->
  forall pre p' o post,
    l = pre ++ EvGet (TextSearch p') o :: post ->
    (pre = [] /\ p' = p)
    \/ (pre <> [] /\ exists tok, truthy tok = true /\ p' = PageToken tok key).
Proof.
  induction 1 as [p l Q | p o l Q | p o mid tok rest Q Hc Ht Hrest IH];
    intros pre p' o' post E.
  - exfalso. exact (TraceFacts.quiet_no_search _ _ _ _ Q E eq_refl).
  - destruct pre as [|z pre]; cbn in E; inversion E; subst.
    + left. now split.
    + exfalso.
      exact (TraceFacts.quiet_no_search _ pre post (EvGet (TextSearch p') o')
               Q eq_refl eq_refl).
  - destruct pre as [|z pre]; cbn in E; inversion E; subst; clear E.
    + left. now split.
    + right. split; [discriminate|].
      assert (Q0 : quiet (mid ++ [EvSleep 2])).
      { apply Forall_app. split; [exact Q|]. constructor; [reflexivity|constructor]. }
      assert (E' : pre ++ EvGet (TextSearch p') o' :: post
                   = (mid ++ [EvSleep 2]) ++ rest).
      { rewrite <- app_assoc. cbn. congruence. }
      destruct (TraceFacts.split_after_quiet _ _ pre post (EvGet (TextSearch p') o')
                  Q0 eq_refl E') as [pre' [Hm Hr]].
      destruct (IH _ _ _ _ Hr) as [[_ ->] | [_ Hlater]].
      * exists tok. now split.
      * exact Hlater.
Qed.

End MoreFacts.

(** ** The events of a run *)

Section ComponentEvents.
Import GooglePlacesSearch Spec.

Variable World : Type.
Variable http_get : request -> World -> outcome * World.
Variable self : Config.

Local Abbreviation state := (state World).
Local Abbreviation M := (M World).
Local Abbreviation get_place_details := (get_place_details World http_get self).
Local Abbreviation extract_valid_emails_from_website :=
  (extract_valid_emails_from_website World http_get self).
Local Abbreviation place_step := (place_step World http_get self).
Local Abbreviation for_places := (for_places World http_get self).
Local Abbreviation page := (page World http_get self).
Local Abbreviation while_loop := (while_loop World http_get self).
Local Abbreviation search_body := (search_body World http_get self).
Local Abbreviation search_results := (search_results World http_get self).
Local Abbreviation max_fetch := (max_fetch self).

(** The first two statements of the loop body and the filter, on a place
    that fails a comparison or is rejected: nothing is requested. *)
Lemma place_step_filter (place : json) (st : state) :
  place_step place st =
    match get place "rating" (JInt 0) with
    | Raise e => (Raise e, st)
    | Ok r =>
        match get place "price_level" (JInt 0) with
        | Raise e => (Raise e, st)
        | Ok p =>
            match lt r (min_rating self) "float" with
            | Raise e => (Raise e, st)
            | Ok true => (Ok None, st)
            | Ok false =>
                match gt p (Finite (inject_Z (max_price_level self))) "int" with
                | Raise e => (Raise e, st)
                | Ok true => (Ok None, st)
                | Ok false => place_step place st
                end
            end
        end
    end.
Proof.
  destruct (get place "rating" (JInt 0)) as [r|e] eqn:Er.
  2:{ unfold GooglePlacesSearch.place_step, GooglePlacesSearch.bind,
        GooglePlacesSearch.lift. now rewrite Er. }
  destruct (get place "price_level" (JInt 0)) as [p|e] eqn:Ep.
  2:{ unfold GooglePlacesSearch.place_step, GooglePlacesSearch.bind,
        GooglePlacesSearch.lift. now rewrite Er, Ep. }
  destruct (lt r (min_rating self) "float") as [[|]|e] eqn:El.
  - unfold GooglePlacesSearch.place_step, GooglePlacesSearch.bind,
      GooglePlacesSearch.lift, GooglePlacesSearch.ret. now rewrite Er, Ep, El.
  - destruct (gt p (Finite (inject_Z (max_price_level self))) "int") as [[|]|e] eqn:Eg;
      try reflexivity;
      unfold GooglePlacesSearch.place_step, GooglePlacesSearch.bind,
        GooglePlacesSearch.lift, GooglePlacesSearch.ret;
      now rewrite Er, Ep, El, Eg.
  - unfold GooglePlacesSearch.place_step, GooglePlacesSearch.bind,
      GooglePlacesSearch.lift. now rewrite Er, Ep, El.
Qed.

(** *** What one place, one page and one run add to the trace *)

Lemma details_trace (pid : json) (st : state) :
  exists o,
    trace (snd (get_place_details pid st))
    = trace st ++ EvGet (Details pid detail_fields (api_key self)) o
                    :: More.details_log pid o.
Proof.
  pose proof (get_place_details_run World http_get self pid st) as Hrun.
  cbv zeta in Hrun.
  destruct (http_get (Details pid detail_fields (api_key self)) (world st))
    as [o w].
  exists o. rewrite Hrun. unfold More.details_log.
  destruct (details_attempt o); reflexivity.
Qed.

Lemma scrape_trace (url : json) (st : state) :
  exists o,
    trace (snd (extract_valid_emails_from_website url st))
    = trace st ++ EvGet (Website url) o
                    :: More.scrape_log (max_emails self) url o.
Proof.
  pose proof (extract_run World http_get self url st) as Hrun.
  destruct (http_get (Website url) (world st)) as [o w].
  exists o. rewrite Hrun. unfold More.scrape_log.
  destruct (scrape_attempt (max_emails self) o); reflexivity.
Qed.

Lemma place_step_events (place : json) (st st' : state) (row : ResultRow) :
  place_step place st = (Ok (Some row), st') ->
  exists ev,
    trace st' = trace st ++ ev
    /\ More.row_events self row ev
    /\ built_from place row.
Proof.
  intros H.
  destruct (place_step_inv _ _ _ _ _ _ _ H)
    as [r [p [pid [details [site [email [st1 H']]]]]]].
  destruct H' as [Hrating [Hprice [_ [_ [Hpid [Hd [_ [Hmail Hrow]]]]]]]].
  destruct (RowFacts.build_row_fields _ _ _ _ _ _ _ _ Hrow)
    as [Er [Ep [Epid [Ew [Ee _]]]]].
  pose proof (MoreFacts.build_row_name _ _ _ _ _ _ _ _ Hrow) as Hname.
  assert (Hfrom : built_from place row)
    by (unfold built_from; rewrite Er, Ep, Epid; now repeat split).
  destruct (details_trace pid st) as [o Ht1]. rewrite Hd in Ht1. cbn [snd] in Ht1.
  subst pid site email.
  destruct (scrape_emails self && truthy (website row))%bool eqn:Hc.
  - destruct (scrape_trace (website row) st1) as [o' Ht2].
    rewrite Hmail in Ht2. cbn [snd] in Ht2.
    eexists. split; [|split; [apply (More.row_events_scraped self row o o' Hc)
                             | exact Hfrom]].
    rewrite Ht2, Ht1. rewrite <- app_assoc. reflexivity.
  - inversion Hmail; subst.
    eexists. split; [exact Ht1|].
    split; [apply (More.row_events_plain self row o Hc); congruence | exact Hfrom].
Qed.

(** A step that ends with no row left the state as it was. *)
Lemma place_step_none (place : json) (st st' : state) :
  place_step place st = (Ok None, st') -> st' = st.
Proof.
  unfold GooglePlacesSearch.place_step, GooglePlacesSearch.bind,
    GooglePlacesSearch.lift, GooglePlacesSearch.ret.
  intros H.
  repeat match type of H with
         | context [match ?x with _ => _ end] =>
             let E := fresh "E" in destruct x eqn:E; try discriminate H
         end;
    inversion H; subst;
    repeat match goal with
           | E : (if ?b then _ else _) _ = (_, _) |- _ =>
               destruct b; inversion E; subst; clear E
           end;
    reflexivity.
Qed.

Lemma for_places_served (places : list json) :
  forall acc fetched st rows f st',
    for_places places acc fetched st = (Ok (rows, f), st') ->
    exists new evs,
      rows = acc ++ new
      /\ trace st' = trace st ++ evs
      /\ More.served self places new evs.
Proof.
  induction places as [|place rest IH]; intros acc fetched st rows f st' H.
  - cbn in H. inversion H; subst. exists [], [].
    rewrite !app_nil_r. repeat split. constructor.
  - rewrite for_places_cons in H.
    destruct (place_step place st) as [[[row|]|e] st1] eqn:E; [| |discriminate].
    + destruct (place_step_events _ _ _ _ E) as [ev [Ht [Hev Hfrom]]].
      destruct (fetched + 1 >=? max_fetch)%Z.
      * inversion H; subst. exists [row], (ev ++ []).
        rewrite app_nil_r. repeat split; [exact Ht|].
        rewrite <- (app_nil_r ev).
        apply More.served_row; try assumption. constructor.
      * destruct (IH _ _ _ _ _ _ H) as [new [evs [Hrows [Ht' Hs]]]].
        exists (row :: new), (ev ++ evs). repeat split.
        -- rewrite Hrows, <- app_assoc. reflexivity.
        -- rewrite Ht', Ht, <- app_assoc. reflexivity.
        -- now apply More.served_row.
    + apply place_step_none in E. subst st1.
      destruct (IH _ _ _ _ _ _ H) as [new [evs [Hrows [Ht' Hs]]]].
      exists new, evs. repeat split; try assumption.
      now apply More.served_skip.
Qed.

Lemma page_served (params : search_params) (acc : list ResultRow) (fetched : Z)
    (st st' : state) (t : turn) :
  page params acc fetched st = (Ok t, st') ->
  exists new evs,
    rows_of t = acc ++ new
    /\ More.served self (More.places_of (fst (http_get (TextSearch params) (world st))))
         new evs
    /\ match t with
       | Break _ =>
           trace st'
           = trace st
               ++ EvGet (TextSearch params)
                    (fst (http_get (TextSearch params) (world st))) :: evs
       | Again p' _ f =>
           trace st'
           = trace st
               ++ EvGet (TextSearch params)
                    (fst (http_get (TextSearch params) (world st)))
               :: evs ++ [EvSleep 2]
           /\ (f < max_fetch)%Z
           /\ exists tok,
                cursor_of (fst (http_get (TextSearch params) (world st))) = Some tok
                /\ truthy tok = true
                /\ p' = PageToken tok (api_key self)
       end.
Proof.
  rewrite page_run.
  destruct (http_get (TextSearch params) (world st)) as [o w]. cbv zeta. cbn [fst].
  unfold More.places_of.
  destruct (page_head o) as [[data results]|e] eqn:Hh; [|discriminate].
  destruct (truthy results) eqn:Hres; cbn [negb].
  2:{ intros H; inversion H; subst. exists [], [].
      rewrite app_nil_r. repeat split. constructor. }
  destruct (iter results) as [places|e]; [|discriminate].
  destruct (for_places places acc fetched _) as [[[rows f]|e] st2] eqn:E;
    [|discriminate].
  destruct (for_places_served _ _ _ _ _ _ _ E) as [new [evs [Hrows [Ht Hs]]]].
  cbn [record trace] in Ht.
  destruct (get data "next_page_token" JNull) as [tok|e] eqn:Htok; [|discriminate].
  destruct (truthy tok) eqn:Htruthy; cbn [negb orb].
  - destruct (Z.geb_spec f max_fetch) as [Hge|Hltf];
      intros H; inversion H; subst; exists new, evs; cbn [rows_of].
    + repeat split; try assumption. rewrite Ht, <- app_assoc. reflexivity.
    + repeat split; try assumption.
      * cbn. rewrite Ht, <- !app_assoc. reflexivity.
      * exists tok. repeat split; try assumption.
        destruct (page_head_ok _ _ _ Hh) as [resp [-> [_ [Hb _]]]].
        cbn. now rewrite Hb, Htok.
  - intros H; inversion H; subst. exists new, evs. cbn [rows_of].
    repeat split; try assumption. rewrite Ht, <- app_assoc. reflexivity.
Qed.

Lemma while_loop_pages (fuel : nat) :
  forall params acc fetched st rows st',
    while_loop fuel params acc fetched st = Some (Ok rows, st') ->
    ((fetched >= max_fetch)%Z /\ rows = acc /\ st' = st)
    \/ ((fetched < max_fetch)%Z
        /\ exists new added,
             rows = acc ++ new
             /\ trace st' = trace st ++ added
             /\ More.pages self params new added).
Proof.
  induction fuel as [|fuel IH]; intros params acc fetched st rows st';
    rewrite while_loop_run.
  - destruct (Z.ltb_spec fetched max_fetch) as [Hlt|Hge]; [discriminate|].
    intros H'; inversion H'; subst. left. repeat split. lia.
  - destruct (Z.ltb_spec fetched max_fetch) as [Hlt|Hge].
    2:{ intros H'; inversion H'; subst. left. repeat split. lia. }
    destruct (page params acc fetched st) as [[[rows1|p1 rows1 f1]|e] st1] eqn:E;
      [| |discriminate];
      destruct (page_served _ _ _ _ _ _ E) as [new [evs [Hrows [Hs Ht]]]];
      cbn [rows_of] in Hrows; intros H'; right; (split; [exact Hlt|]).
    + inversion H'; subst.
      exists new, (EvGet (TextSearch params)
                     (fst (http_get (TextSearch params) (world st))) :: evs).
      repeat split; [exact Ht|]. now apply More.pages_last.
    + destruct Ht as [Ht [Hf1 [tok [Hc [Htr ->]]]]].
      destruct (IH _ _ _ _ _ _ H') as [[Hge _] | [_ [new' [added' [Hr' [Ht' Hp']]]]]];
        [lia|].
      exists (new ++ new'),
        (EvGet (TextSearch params) (fst (http_get (TextSearch params) (world st)))
           :: evs ++ EvSleep 2 :: added').
      repeat split.
      * rewrite Hr', Hrows, <- app_assoc. reflexivity.
      * rewrite Ht', Ht. rewrite <- !app_assoc. cbn.
        rewrite <- !app_assoc. reflexivity.
      * now apply (More.pages_next self _ _ _ _ tok).
Qed.

(** A run that ends without the error table: its rows and its events. *)
Lemma search_results_run_events (fuel : nat) (st st' : state) (df : DataFrame) :
  search_results fuel st = Some (df, st') ->
  (forall msg, df <> Error msg) ->
  exists added,
    trace st' = trace st ++ added
    /\ More.run_events self (Query (query self) (api_key self))
         (result_rows df) added.
Proof.
  unfold GooglePlacesSearch.search_results, GooglePlacesSearch.search_body.
  destruct (while_loop fuel _ [] 0%Z st) as [[[rows|e] st1]|] eqn:E;
    [| |discriminate].
  - intros H Hne.
    destruct (while_loop_pages _ _ _ _ _ _ _ E)
      as [[_ [-> ->]] | [_ [new [added [Hr [Ht Hp]]]]]].
    + inversion H; subst. exists []. cbn. rewrite app_nil_r.
      split; [reflexivity | now left].
    + cbn in Hr. subst new. exists added.
      destruct rows; inversion H; subst; cbn [result_rows];
        (split; [exact Ht | now right]).
  - intros H Hne. inversion H; subst. exfalso. now apply (Hne (exn_str e)).
Qed.

(** Every row of the table was built from a place of a page received. *)
Lemma search_results_built_from (fuel : nat) (st st' : state) (df : DataFrame) :
  search_results fuel st = Some (df, st') ->
  exists added,
    trace st' = trace st ++ added
    /\ forall row, In row (result_rows df) ->
         exists place, In place (More.received added) /\ built_from place row.
Proof.
  intros Hrun.
  destruct df as [rows|msg|msg].
  - assert (Hne : forall msg, Table rows <> Error msg) by discriminate.
    destruct (search_results_run_events _ _ _ _ Hrun Hne) as [added [Ht Hev]].
    exists added. split; [exact Ht|]. intros row Hin.
    destruct (MoreFacts.run_events_facts _ _ _ _ Hev)
      as [_ [_ [_ [_ [chosen [Hs Hf]]]]]].
    destruct (MoreFacts.Forall2_In_r _ _ _ _ Hf Hin) as [place [Hp Hfrom]].
    exists place. split; [|exact Hfrom].
    exact (MoreFacts.subseq_In _ _ _ Hs Hp).
  - destruct (search_results_paging _ _ _ _ _ _ _ Hrun) as [added [Ht _]].
    exists added. split; [exact Ht|]. intros row [].
  - destruct (search_results_paging _ _ _ _ _ _ _ Hrun) as [added [Ht _]].
    exists added. split; [exact Ht|]. intros row [].
Qed.

(** A loop that is entered begins with the request it was given. *)
Lemma while_loop_first (fuel : nat) (params : search_params)
    (acc : list ResultRow) (fetched : Z) (st st' : state)
    (r : res (list ResultRow)) :
  (fetched < max_fetch)%Z ->
  while_loop fuel params acc fetched st = Some (r, st') ->
  exists o rest,
    trace st' = trace st ++ EvGet (TextSearch params) o :: rest.
Proof.
  intros Hlt. rewrite while_loop_run.
  destruct (Z.ltb_spec fetched max_fetch) as [_|Hge]; [|lia].
  destruct fuel as [|fuel]; [discriminate|].
  pose proof (page_trace World http_get self params acc fetched st) as Hp.
  destruct (http_get (TextSearch params) (world st)) as [o w].
  destruct Hp as [added [Ht _]].
  destruct (page params acc fetched st) as [[[rows1|p1 rows1 f1]|e] st1];
    cbn [fst snd] in Ht.
  - intros H; inversion H; subst. now exists o, added.
  - intros H.
    destruct (while_loop_paging _ _ _ _ _ _ _ _ _ _ H) as [more [Ht' _]].
    exists o, (added ++ more). rewrite Ht', Ht, <- app_assoc. reflexivity.
  - intros H; inversion H; subst. now exists o, added.
Qed.

(** A run with a positive cap begins with the request that carries the
    query. *)
Lemma search_results_first (fuel : nat) (st st' : state) (df : DataFrame) :
  (0 < max_fetch)%Z ->
  search_results fuel st = Some (df, st') ->
  exists o rest,
    trace st'
    = trace st ++ EvGet (TextSearch (Query (query self) (api_key self))) o :: rest.
Proof.
  intros Hpos.
  unfold GooglePlacesSearch.search_results, GooglePlacesSearch.search_body.
  destruct (while_loop fuel _ [] 0%Z st) as [[[rows|e] st1]|] eqn:E;
    [| |discriminate];
    destruct (while_loop_first _ _ _ _ _ _ _ Hpos E) as [o [rest Ht]].
  - destruct rows; intros H; inversion H; subst; exists o, rest; exact Ht.
  - intros H; inversion H; subst. exists o, (rest ++ [EvLog (Repr e)]).
    cbn. rewrite Ht, <- app_assoc. reflexivity.
Qed.

End ComponentEvents.

(** ** The claims *)

Import GooglePlacesSearch.

(** C1, as the code has it.  Every row of the table was built from a place
    of a page received, and its [rating] and [price_level] are the place's (0
    when the place has none).  Both are numbers; the rating is not below
    [min_rating] and the price level is not above [max_price_level], which
    is what the filter tests.  When no NaN is compared, this is: the rating
    is at least [min_rating] and the price level is at most
    [max_price_level].  And a place that misses a bound yields no row. *)
Theorem C1_rows_satisfy_filter :
  forall (World : Type) (http_get : request -> World -> outcome * World)
         (self : Config),
    (forall fuel st df st',
        search_results World http_get self fuel st = Some (df, st') ->
        exists added,
          trace st' = trace st ++ added
          /\ forall row, In row (result_rows df) ->
               (exists place,
                   In place (More.received added) /\ Spec.built_from place row)
               /\ Spec.not_rejected self row
               /\ (Spec.comparable self row -> Spec.within_bounds self row))
    /\ (forall place st row st',
           Spec.violates self place ->
           place_step World http_get self place st <> (Ok (Some row), st')).
Proof.
  intros World http_get self.
  assert (Step : forall place st row st',
             place_step World http_get self place st = (Ok (Some row), st') ->
             (Spec.not_rejected self row
              /\ (Spec.comparable self row -> Spec.within_bounds self row))
             /\ get place "rating" (JInt 0) = Ok (rating row)
             /\ get place "price_level" (JInt 0) = Ok (price_level row)).
  { intros place st row st' H.
    destruct (place_step_inv _ _ _ _ _ _ _ H)
      as [r [p [pid [details [site [email [st1 H']]]]]]].
    destruct H' as [Hr [Hp [Hlt [Hgt [_ [_ [_ [_ Hrow]]]]]]]].
    destruct (RowFacts.build_row_fields _ _ _ _ _ _ _ _ Hrow) as [Er [Ep _]].
    destruct (PyFacts.lt_false _ _ _ Hlt) as [x [Hx Hlow]].
    destruct (PyFacts.gt_false _ _ _ Hgt) as [y [Hy Hhigh]].
    unfold Spec.not_rejected, Spec.within_bounds, Spec.comparable, Spec.price_bound.
    rewrite Er, Ep.
    split; [|now split].
    split.
    - exists x, y. now repeat split.
    - intros [Hnr [Hnp Hnm]]. exists x, y.
      assert (Hxn : x <> NaN).
      { intros ->. apply Hnr. now apply PyFacts.num_of_nan. }
      assert (Hyn : y <> NaN).
      { intros ->. apply Hnp. now apply PyFacts.num_of_nan. }
      split; [exact Hx|].
      split; [now apply PyFacts.not_less_le|].
      split; [exact Hy|].
      apply PyFacts.not_less_le; [exact Hhigh | discriminate | exact Hyn]. }
  split.
  - intros fuel st df st' Hrun.
    destruct (search_results_built_from _ _ _ _ _ _ _ Hrun) as [added [Ht Hfrom]].
    exists added. split; [exact Ht|].
    intros row Hin. split; [now apply Hfrom|].
    pose proof (search_results_rows World http_get self
                  (fun row => Spec.not_rejected self row
                              /\ (Spec.comparable self row
                                  -> Spec.within_bounds self row))) as Hall.
    assert (Hrows := Hall (fun place st0 row0 st0' H0 =>
                             proj1 (Step place st0 row0 st0' H0))
                          fuel st st' df Hrun).
    rewrite Forall_forall in Hrows. now apply Hrows.
  - intros place st row st' [r [p [Hr [Hp Hbad]]]] H.
    destruct (Step _ _ _ _ H) as [[[x [y [Hx [Hlow [Hy Hhigh]]]]] _] [Er Ep]].
    rewrite Hr in Er. rewrite Hp in Ep. inversion Er; inversion Ep; subst.
    destruct Hbad as [[z [Hz Hless]] | [z [Hz Hless]]].
    + rewrite Hx in Hz. inversion Hz; subst. now apply Hlow.
    + rewrite Hy in Hz. inversion Hz; subst. now apply Hhigh.
Qed.

Lemma C1_witness :
  exists df st' added,
    search_results unit (Scenario.serve Scenario.two_pages) Scenario.cfg 5
      Scenario.st0 = Some (df, st')
    /\ List.length (result_rows df) = 2
    /\ trace st' = trace Scenario.st0 ++ added
    /\ (forall row, In row (result_rows df) ->
          (exists place,
              In place (More.received added) /\ Spec.built_from place row)
          /\ Spec.not_rejected Scenario.cfg row
          /\ Spec.within_bounds Scenario.cfg row)
    /\ (forall st row st',
          place_step unit (Scenario.serve Scenario.two_pages) Scenario.cfg
            Scenario.place_low st <> (Ok (Some row), st')).
Proof.
  destruct (C1_rows_satisfy_filter unit (Scenario.serve Scenario.two_pages)
              Scenario.cfg) as [Hrows Hviol].
  destruct (Hrows 5 Scenario.st0 _ _ eq_refl) as [added [Ht Hall]].
  eexists. eexists. exists added.
  split; [vm_compute; reflexivity|].
  split; [reflexivity|]. split; [exact Ht|]. split.
  - intros row Hin. destruct (Hall row Hin) as [Hfrom [Hpass Hwithin]].
    split; [exact Hfrom|]. split; [exact Hpass|].
    apply Hwithin.
    destruct Hin as [<- | [<- | []]]; repeat split; discriminate.
  - intros st row st'. apply Hviol.
    exists (JInt 3), (JInt 0). split; [reflexivity|]. split; [reflexivity|].
    left. exists (Finite (inject_Z 3)). split; [reflexivity|].
    vm_compute. reflexivity.
Defined.

(** A place whose rating is NaN passes [rating < min_rating], which is
    false, and gets its row; the row's rating is not at least
    [min_rating]. *)
Lemma C1_counterexample :
  exists row st',
    search_results unit (Scenario.serve Scenario.nan_rating) Scenario.cfg 5
      Scenario.st0 = Some (Table [row], st')
    /\ Spec.built_from Scenario.place_nan row
    /\ rating row = JFloat NaN
    /\ min_rating Scenario.cfg = Finite (4 # 1)
    /\ ~ Spec.within_bounds Scenario.cfg row.
Proof.
  eexists. eexists. split; [vm_compute; reflexivity|].
  split; [repeat split|]. split; [reflexivity|]. split; [reflexivity|].
  intros [r [p [Hr [Hle _]]]]. cbn in Hr. inversion Hr; subst r.
  exact Hle.
Qed.

(** C2, as the code has it.  The number of result rows is at most
    [max_fetch = min(max_results or 20, 60)] (and never negative): at most
    [min(max_results, 60)] when [max_results] is at least 1, in which case
    the message and error tables, of one row, are within the bound too; at
    most 20 when [max_results] is 0, which [or] replaces by 20; none when
    [max_results] is negative. *)
Theorem C2_row_count_capped :
  forall (World : Type) (http_get : request -> World -> outcome * World)
         (self : Config) fuel st df st',
    search_results World http_get self fuel st = Some (df, st') ->
    let n := Z.of_nat (List.length (result_rows df)) in
    (n <= Z.max 0 (max_fetch self))%Z
    /\ ((1 <= max_results self)%Z ->
        (n <= Z.min (max_results self) 60)%Z
        /\ (Z.of_nat (nrows df) <= Z.min (max_results self) 60)%Z)
    /\ (max_results self = 0%Z -> (n <= 20)%Z)
    /\ ((max_results self < 0)%Z -> n = 0%Z).
Proof.
  intros World http_get self fuel st df st' Hrun n.
  assert (Hn : (n <= Z.max 0 (max_fetch self))%Z).
  { subst n. revert Hrun.
    unfold search_results, search_body.
    destruct (while_loop World http_get self fuel _ [] 0%Z st)
      as [[[rows|e] st1]|] eqn:E; [| |discriminate].
    - assert (Hc : (Z.of_nat (List.length rows) <= Z.max 0 (max_fetch self))%Z).
      { eapply while_loop_count; [| |exact E]; cbn; lia. }
      destruct rows; intros H; inversion H; subst; cbn [result_rows]; [cbn; lia | exact Hc].
    - intros H; inversion H; subst. cbn. lia. }
  assert (Hrows : nrows df = List.length (result_rows df) \/ nrows df = 1%nat)
    by (destruct df; cbn; auto).
  unfold max_fetch in Hn.
  split; [exact Hn|]. split; [|split].
  - intros H1. destruct (Z.eqb_spec (max_results self) 0); lia.
  - intros H0. rewrite H0 in Hn. cbn in Hn. lia.
  - intros Hneg. destruct (Z.eqb_spec (max_results self) 0); lia.
Qed.

Lemma C2_witness :
  exists df st',
    search_results unit (Scenario.serve Scenario.two_pages) Scenario.cfg 5
      Scenario.st0 = Some (df, st')
    /\ (Z.of_nat (List.length (result_rows df)) <= 20)%Z
    /\ (Z.of_nat (nrows df) <= 20)%Z.
Proof.
  eexists. eexists. split; [vm_compute; reflexivity|].
  assert (H := C2_row_count_capped unit (Scenario.serve Scenario.two_pages)
                 Scenario.cfg 5 Scenario.st0 _ _ eq_refl).
  cbv zeta in H. destruct H as [_ [H _]].
  assert (H1 : (1 <= max_results Scenario.cfg)%Z) by (vm_compute; discriminate).
  exact (H H1).
Defined.

(** With [max_results] 0 the default 20 applies: four rows, and
    [min(0, 60)] is 0. *)
Lemma C2_counterexample :
  exists df st',
    search_results unit (Scenario.serve Scenario.two_pages) Scenario.cfg_zero 5
      Scenario.st0 = Some (df, st')
    /\ List.length (result_rows df) = 4
    /\ ~ (Z.of_nat (List.length (result_rows df))
          <= Z.min (max_results Scenario.cfg_zero) 60)%Z.
Proof.
  eexists. eexists. split; [vm_compute; reflexivity|].
  split; [reflexivity|]. vm_compute. intros H. apply H. reflexivity.
Qed.

(** C3.  [search_results] never raises: whatever exception the [try] block
    raises, the function returns the table with the single row that holds
    [str(e)], after setting the status and logging [repr(e)]; in particular
    when the primary text-search request fails (the request raises, the
    status is an error status, or the body is not a JSON object). *)
Theorem C3_errors_become_one_row :
  forall (World : Type) (http_get : request -> World -> outcome * World)
         (self : Config),
    (forall fuel st e st1,
        search_body World http_get self fuel st = Some (Raise e, st1) ->
        exists st',
          search_results World http_get self fuel st
          = Some (Error (exn_str e), st')
          /\ nrows (Error (exn_str e)) = 1
          /\ status st' = Some ("Error: " ++ exn_str e)%string
          /\ trace st' = trace st1 ++ [EvLog (Repr e)])
    /\ (forall st o w e,
           (0 < max_fetch self)%Z ->
           http_get (TextSearch (Query (query self) (api_key self))) (world st)
           = (o, w) ->
           Spec.page_head o = Raise e ->
           forall fuel,
             search_results World http_get self (S fuel) st
             = Some (Error (exn_str e),
                     {| world := w;
                        trace := trace st
                                   ++ [EvGet (TextSearch (Query (query self) (api_key self))) o;
                                       EvLog (Repr e)];
                        status := Some ("Error: " ++ exn_str e)%string |})).
Proof.
  intros World http_get self. split.
  - intros fuel st e st1 H. unfold search_results. rewrite H.
    eexists. split; [reflexivity|]. cbn. now repeat split.
  - intros st o w e Hpos Hget Hhead fuel.
    unfold search_results, search_body.
    rewrite while_loop_run.
    destruct (Z.ltb_spec 0 (max_fetch self)) as [_|Hle]; [|lia].
    rewrite page_run, Hget. cbv zeta. rewrite Hhead.
    unfold Spec.record. cbn. now rewrite <- app_assoc.
Qed.

Lemma C3_witness :
  search_results unit (Scenario.serve Scenario.broken) Scenario.cfg 1 Scenario.st0
  = Some (Error "500 Server Error: Internal Server Error",
          {| world := tt;
             trace := [EvGet (TextSearch (Query "bakery" "KEY")) Scenario.server_error;
                       EvLog (Repr (Exn "HTTPError"
                                        "500 Server Error: Internal Server Error"))];
             status := Some "Error: 500 Server Error: Internal Server Error" |}).
Proof.
  destruct (C3_errors_become_one_row unit (Scenario.serve Scenario.broken)
              Scenario.cfg) as [_ H].
  apply (H Scenario.st0 Scenario.server_error tt
           (Exn "HTTPError" "500 Server Error: Internal Server Error")).
  - vm_compute. reflexivity.
  - reflexivity.
  - reflexivity.
Defined.

(** C6.  When the first page comes back with an empty (or missing) list of
    results, the output is the one-row table with the message
    [No results found.], and the status is that message. *)
Theorem C6_no_results :
  forall (World : Type) (http_get : request -> World -> outcome * World)
         (self : Config) st resp w data,
    http_get (TextSearch (Query (query self) (api_key self))) (world st)
    = (Received resp, w) ->
    raise_for_status resp = Ok tt ->
    json_body resp = Ok data ->
    get data "results" (JList []) = Ok (JList []) ->
    forall fuel, exists st',
      search_results World http_get self (S fuel) st
      = Some (Message "No results found.", st')
      /\ nrows (Message "No results found.") = 1
      /\ status st' = Some "No results found.".
Proof.
  intros World http_get self st resp w data Hget Hs Hb Hr fuel.
  unfold search_results, search_body. rewrite while_loop_run.
  destruct (0 <? max_fetch self)%Z.
  - rewrite page_run, Hget. cbv zeta. cbn [Spec.page_head].
    rewrite Hs, Hb, Hr. cbn. eexists. now repeat split.
  - eexists. now repeat split.
Qed.

Lemma C6_witness :
  exists st',
    search_results unit (Scenario.serve Scenario.nothing) Scenario.cfg 1
      Scenario.st0 = Some (Message "No results found.", st')
    /\ nrows (Message "No results found.") = 1
    /\ status st' = Some "No results found.".
Proof.
  eapply (C6_no_results unit (Scenario.serve Scenario.nothing) Scenario.cfg
            Scenario.st0); reflexivity.
Defined.

(** C7, as the code has it.  The row's [phone_number] is the detail
    record's formatted number when that is present and truthy (not null, not
    empty), else what the record has for the international number, else
    absent. *)
Theorem C7_phone_number :
  forall (World : Type) (http_get : request -> World -> outcome * World)
         (self : Config) fuel st df st',
    search_results World http_get self fuel st = Some (df, st') ->
    forall row, In row (result_rows df) ->
      exists d st1 st2,
        get_place_details World http_get self (place_id row) st1
        = (Ok (JDict d), st2)
        /\ phone_number row = Spec.phone_of d.
Proof.
  intros World http_get self fuel st df st' Hrun row Hin.
  pose proof (search_results_rows World http_get self
                (fun row => exists d st1 st2,
                     get_place_details World http_get self (place_id row) st1
                     = (Ok (JDict d), st2)
                     /\ phone_number row = Spec.phone_of d)) as Hall.
  assert (Hrows : Forall (fun row => exists d st1 st2,
                     get_place_details World http_get self (place_id row) st1
                     = (Ok (JDict d), st2)
                     /\ phone_number row = Spec.phone_of d) (result_rows df)).
  { apply (Hall) with (fuel := fuel) (st := st) (st' := st'); [|exact Hrun].
    intros place s row0 s' H.
    destruct (place_step_inv _ _ _ _ _ _ _ H)
      as [r [p [pid [details [site [email [s1 H']]]]]]].
    destruct H' as [_ [_ [_ [_ [_ [Hd [Hsite [_ Hrow]]]]]]]].
    destruct (RowFacts.build_row_fields _ _ _ _ _ _ _ _ Hrow)
      as [_ [_ [Epid [_ [_ [_ [f [i [Hf [Hi Hphone]]]]]]]]]].
    destruct (PyFacts.get_dict _ _ _ _ Hsite) as [d ->].
    exists d, s, s1. rewrite Epid. split; [exact Hd|].
    rewrite Hphone. now apply DetailsFacts.phone_of_or. }
  rewrite Forall_forall in Hrows. now apply Hrows.
Qed.

Lemma C7_witness :
  exists df st',
    search_results unit (Scenario.serve Scenario.two_pages) Scenario.cfg 5
      Scenario.st0 = Some (df, st')
    /\ forall row, In row (result_rows df) ->
         exists d st1 st2,
           get_place_details unit (Scenario.serve Scenario.two_pages)
             Scenario.cfg (place_id row) st1 = (Ok (JDict d), st2)
           /\ phone_number row = Spec.phone_of d.
Proof.
  eexists. eexists. split; [vm_compute; reflexivity|].
  eapply (C7_phone_number unit (Scenario.serve Scenario.two_pages) Scenario.cfg
            5 Scenario.st0).
  vm_compute. reflexivity.
Defined.

(** The detail record of place A has the formatted number, empty; the row
    holds the international one. *)
Lemma C7_counterexample :
  exists df st' row d st2,
    search_results unit (Scenario.serve Scenario.two_pages) Scenario.cfg 5
      Scenario.st0 = Some (df, st')
    /\ In row (result_rows df)
    /\ get_place_details unit (Scenario.serve Scenario.two_pages) Scenario.cfg
         (place_id row) Scenario.st0 = (Ok (JDict d), st2)
    /\ lookup "formatted_phone_number" d = Some (JStr "")
    /\ Spec.phone_as_worded d = JStr ""
    /\ phone_number row = JStr "+33 1 23"
    /\ phone_number row <> Spec.phone_as_worded d.
Proof.
  do 5 eexists. split; [vm_compute; reflexivity|].
  split; [left; reflexivity|].
  split; [vm_compute; reflexivity|].
  split; [reflexivity|]. split; [reflexivity|]. split; [reflexivity|].
  cbn. discriminate.
Qed.

(** C8, as the code has it.  [get_place_details] never raises.  When the
    details request fails (the request raises, the status is an error
    status, 400 to 599, the body is not JSON or is not a JSON object), it
    returns an empty detail record and logs one line; and the row of an
    accepted place whose own fields map without error is still produced,
    with the detail fields empty. *)
Theorem C8_details_failure_degrades :
  forall (World : Type) (http_get : request -> World -> outcome * World)
         (self : Config),
    (forall pid st, exists v st',
        get_place_details World http_get self pid st = (Ok v, st'))
    /\ (forall pid st o w e,
           http_get (Details pid detail_fields (api_key self)) (world st) = (o, w) ->
           Spec.details_failure o e ->
           get_place_details World http_get self pid st
           = (Ok (JDict []),
              Spec.record st w
                [EvGet (Details pid detail_fields (api_key self)) o;
                 EvLog (DetailsFailed pid e)]))
    /\ (forall place st r p pid o w e row,
           get place "rating" (JInt 0) = Ok r ->
           get place "price_level" (JInt 0) = Ok p ->
           lt r (min_rating self) "float" = Ok false ->
           gt p (Finite (inject_Z (max_price_level self))) "int" = Ok false ->
           get place "place_id" JNull = Ok pid ->
           http_get (Details pid detail_fields (api_key self)) (world st) = (o, w) ->
           Spec.details_failure o e ->
           build_row place (JDict []) r p pid JNull None = Ok row ->
           place_step World http_get self place st
           = (Ok (Some row),
              Spec.record st w
                [EvGet (Details pid detail_fields (api_key self)) o;
                 EvLog (DetailsFailed pid e)])
           /\ phone_number row = JNull /\ website row = JNull
           /\ emails row = None /\ opening_hours_weekly row = "").
Proof.
  intros World http_get self.
  assert (Fail : forall pid st o w e,
             http_get (Details pid detail_fields (api_key self)) (world st) = (o, w) ->
             Spec.details_failure o e ->
             get_place_details World http_get self pid st
             = (Ok (JDict []),
                Spec.record st w
                  [EvGet (Details pid detail_fields (api_key self)) o;
                   EvLog (DetailsFailed pid e)])).
  { intros pid st o w e Hget Hfail.
    pose proof (get_place_details_run World http_get self pid st) as Hrun.
    cbv zeta in Hrun. rewrite Hget in Hrun.
    now rewrite (DetailsFacts.details_failure_attempt _ _ Hfail) in Hrun. }
  split; [apply get_place_details_returns|]. split; [exact Fail|].
  intros place st r p pid o w e row Hr Hp Hlt Hgt Hpid Hget Hfail Hrow.
  split.
  - unfold place_step, bind, lift, ret.
    rewrite Hr, Hp, Hlt, Hgt, Hpid, (Fail _ _ _ _ _ Hget Hfail).
    cbn [get lookup truthy]. rewrite andb_false_r. now rewrite Hrow.
  - destruct (RowFacts.build_row_fields _ _ _ _ _ _ _ _ Hrow)
      as [_ [_ [_ [Ew [Ee [[h [t [Eh [Et Ej]]]] [f [i [Ef [Ei Ephone]]]]]]]]]].
    cbn in Eh, Ef, Ei. inversion Eh; inversion Ef; inversion Ei; subst.
    cbn in Et. inversion Et; subst. cbn in Ej. inversion Ej.
    now repeat split.
Qed.

Lemma C8_witness :
  exists row st',
    place_step unit (Scenario.serve Scenario.two_pages) Scenario.cfg
      Scenario.place_d Scenario.st0 = (Ok (Some row), st')
    /\ phone_number row = JNull /\ website row = JNull
    /\ emails row = None /\ opening_hours_weekly row = ""
    /\ trace st'
       = [EvGet (Details (JStr "pd") detail_fields "KEY") Scenario.server_error;
          EvLog (DetailsFailed (JStr "pd")
                   (Exn "HTTPError" "500 Server Error: Internal Server Error"))].
Proof.
  destruct (C8_details_failure_degrades unit (Scenario.serve Scenario.two_pages)
              Scenario.cfg) as [_ [_ H]].
  eexists. eexists.
  assert (F : Spec.details_failure Scenario.server_error
                (Exn "HTTPError" "500 Server Error: Internal Server Error")).
  { apply (Spec.fails_status
             {| status_code := 500;
                http_error := "500 Server Error: Internal Server Error";
                text := ""; json_body := Ok JNull |}).
    cbn. lia. }
  destruct (H Scenario.place_d Scenario.st0 (JInt 4) (JInt 0) (JStr "pd")
              Scenario.server_error tt _ _
              eq_refl eq_refl eq_refl eq_refl eq_refl eq_refl F eq_refl)
    as [Hstep Hfields].
  split; [exact Hstep|].
  destruct Hfields as [H1 [H2 [H3 H4]]].
  repeat split; assumption || reflexivity.
Defined.

(** The details endpoint answers with status 203 and a well-formed body: the
    record is returned as it is and nothing is logged. *)
Lemma C8_counterexample :
  exists resp st',
    Scenario.serve Scenario.non_authoritative
      (Details (JStr "pa") detail_fields "KEY") tt = (Received resp, tt)
    /\ status_code resp <> 200%Z
    /\ get_place_details unit (Scenario.serve Scenario.non_authoritative)
         Scenario.cfg (JStr "pa") Scenario.st0 = (Ok Scenario.details_a, st')
    /\ Scenario.details_a <> JDict []
    /\ trace st'
       = [EvGet (Details (JStr "pa") detail_fields "KEY") (Received resp)].
Proof.
  eexists. eexists. split; [reflexivity|].
  split; [cbn; discriminate|].
  split; [vm_compute; reflexivity|].
  split; [discriminate | reflexivity].
Qed.

(** C4, as the code has it.  When [max_emails] is not negative, the [emails]
    field of a row, when present, was scraped from a page fetched from the
    row's website and is a list of at most [max_emails] entries joined with
    a comma and a space; each entry was matched by the e-mail pattern in
    that page (so it has the form local part, [@], domain, dot, at least two
    letters, and stands between two word boundaries), none holds a
    denylisted substring in any case, and the entries ascend. *)
Theorem C4_emails_field :
  forall (World : Type) (http_get : request -> World -> outcome * World)
         (self : Config) fuel st df st',
    search_results World http_get self fuel st = Some (df, st') ->
    (0 <= max_emails self)%Z ->
    forall row field,
      In row (result_rows df) ->
      emails row = Some field ->
      exists resp w w',
        http_get (Website (website row)) w = (Received resp, w')
        /\ status_code resp = 200%Z
        /\ Spec.emails_field_ok (max_emails self) (text resp) field.
Proof.
  intros World http_get self fuel st df st' Hrun Hmax row field Hin.
  pose proof (search_results_rows World http_get self
                (fun row => forall field, emails row = Some field ->
                   exists resp w w',
                     http_get (Website (website row)) w = (Received resp, w')
                     /\ status_code resp = 200%Z
                     /\ Spec.emails_field_ok (max_emails self) (text resp) field))
    as Hall.
  assert (Hrows := fun step => Hall step fuel st st' df Hrun).
  rewrite Forall_forall in Hrows. apply Hrows; [|exact Hin].
  clear - Hmax. intros place s row s' H field Hfield.
  destruct (place_step_inv _ _ _ _ _ _ _ H)
    as [r [p [pid [details [site [email [s1 H']]]]]]].
  destruct H' as [_ [_ [_ [_ [_ [_ [_ [Hmail Hrow]]]]]]]].
  destruct (RowFacts.build_row_fields _ _ _ _ _ _ _ _ Hrow)
    as [_ [_ [_ [Ew [Ee _]]]]].
  rewrite Ew. rewrite Ee in Hfield. subst email.
  destruct (scrape_emails self && truthy site)%bool; [|discriminate].
  rewrite extract_run in Hmail.
  destruct (http_get (Website site) (world s1)) as [o w'] eqn:Hget.
  destruct o as [e|resp]; cbn [Spec.scrape_attempt] in Hmail; [discriminate|].
  destruct (Z.eqb_spec (status_code resp) 200) as [H200|]; cbn [negb orb] in Hmail;
    [|discriminate].
  destruct (text resp =? "")%string; [discriminate|].
  inversion Hmail as [[Hof Hst]].
  exists resp, (world s1), w'. split; [exact Hget|]. split; [exact H200|].
  now apply EmailsFacts.of_text_ok.
Qed.

Lemma C4_witness :
  exists df st',
    search_results unit (Scenario.serve Scenario.two_pages) Scenario.cfg 5
      Scenario.st0 = Some (df, st')
    /\ forall row field,
         In row (result_rows df) ->
         emails row = Some field ->
         exists resp w w',
           Scenario.serve Scenario.two_pages (Website (website row)) w
           = (Received resp, w')
           /\ status_code resp = 200%Z
           /\ Spec.emails_field_ok 3 (text resp) field.
Proof.
  eexists. eexists. split; [vm_compute; reflexivity|].
  eapply (C4_emails_field unit (Scenario.serve Scenario.two_pages) Scenario.cfg
            5 Scenario.st0).
  - vm_compute. reflexivity.
  - vm_compute. discriminate.
Defined.

(** With [max_emails] -1 the slice drops the last of the three addresses of
    the page: the field has two entries, and two is more than -1. *)
Lemma C4_counterexample :
  exists df st' row,
    search_results unit (Scenario.serve Scenario.two_pages)
      Scenario.cfg_negative_emails 5 Scenario.st0 = Some (df, st')
    /\ In row (result_rows df)
    /\ emails row = Some "Bob@x.com, bob@x.com"
    /\ forall text,
         ~ Spec.emails_field_ok (max_emails Scenario.cfg_negative_emails) text
             "Bob@x.com, bob@x.com".
Proof.
  do 3 eexists. split; [vm_compute; reflexivity|].
  split; [left; reflexivity|]. split; [reflexivity|].
  intros text [entries [_ [Hlen _]]]. cbn in Hlen. lia.
Qed.




(** C9.  De-duplication is case-sensitive: on a page that holds one address
    in two spellings that differ in case only, both pass the denylist, both
    are found, and both are in the output. *)
Theorem C9_dedup_is_case_sensitive :
  exists a b : string,
    a <> b
    /\ Emails.lower a = Emails.lower b
    /\ In a (Re.findall Scenario.two_cases)
    /\ In b (Re.findall Scenario.two_cases)
    /\ Emails.is_valid a = true /\ Emails.is_valid b = true
    /\ Emails.py_set (Re.findall Scenario.two_cases) = [a; b]
    /\ Emails.valid_emails 3 Scenario.two_cases = [a; b]
    /\ Emails.of_text 3 Scenario.two_cases = Some "Sales@Shop.io, sales@shop.io".
Proof.
  exists "Sales@Shop.io", "sales@shop.io".
  split; [discriminate|].
  repeat split; try reflexivity; vm_compute; auto.
Qed.

(** C10.  A page whose second place has the key [photos] with an empty
    list: the first place has its row, the subscript [[0]] raises on the
    second, and the search returns the one-row error table, without the row
    of the first place. *)
Theorem C10_empty_photos_aborts_search :
  exists df st' row st1 st2 d,
    Scenario.place_nophoto = JDict d
    /\ lookup "photos" d = Some (JList [])
    /\ place_step unit (Scenario.serve Scenario.empty_photos) Scenario.cfg
         Scenario.place_a Scenario.st0 = (Ok (Some row), st1)
    /\ place_step unit (Scenario.serve Scenario.empty_photos) Scenario.cfg
         Scenario.place_nophoto st1
       = (Raise (IndexError "list index out of range"), st2)
    /\ search_results unit (Scenario.serve Scenario.empty_photos) Scenario.cfg 5
         Scenario.st0 = Some (df, st')
    /\ df = Error "list index out of range"
    /\ nrows df = 1
    /\ result_rows df = []
    /\ status st' = Some "Error: list index out of range".
Proof.
  do 6 eexists.
  split; [reflexivity|].
  split; [reflexivity|].
  split; [vm_compute; reflexivity|].
  split; [vm_compute; reflexivity|].
  split; [vm_compute; reflexivity|].
  repeat split.
Qed.

(** ** Further properties of the three methods *)

Section ComponentMore.
Import GooglePlacesSearch Spec.

Variable World : Type.
Variable http_get : request -> World -> outcome * World.
Variable self : Config.

Local Abbreviation state := (state World).
Local Abbreviation M := (M World).
Local Abbreviation get_place_details := (get_place_details World http_get self).
Local Abbreviation extract_valid_emails_from_website :=
  (extract_valid_emails_from_website World http_get self).
Local Abbreviation place_step := (place_step World http_get self).
Local Abbreviation for_places := (for_places World http_get self).
Local Abbreviation page := (page World http_get self).
Local Abbreviation while_loop := (while_loop World http_get self).
Local Abbreviation search_body := (search_body World http_get self).
Local Abbreviation search_results := (search_results World http_get self).
Local Abbreviation max_fetch := (max_fetch self).

(** X1.  The scraper never raises and asks the site once.  A request that
    raises gives no e-mail and one log line; a status other than 200 or an
    empty page gives no e-mail and no log line; otherwise the result is what
    the text processing makes of the page. *)
Theorem X1_scraper_outcomes (url : json) (st : state) :
  (exists v st', extract_valid_emails_from_website url st = (Ok v, st'))
  /\ (forall e w,
         http_get (Website url) (world st) = (Failed e, w) ->
         extract_valid_emails_from_website url st
         = (Ok None,
            record st w [EvGet (Website url) (Failed e);
                         EvLog (ScrapeFailed url e)]))
  /\ (forall resp w,
         http_get (Website url) (world st) = (Received resp, w) ->
         status_code resp <> 200%Z \/ text resp = "" ->
         extract_valid_emails_from_website url st
         = (Ok None, record st w [EvGet (Website url) (Received resp)]))
  /\ (forall resp w,
         http_get (Website url) (world st) = (Received resp, w) ->
         status_code resp = 200%Z -> text resp <> "" ->
         extract_valid_emails_from_website url st
         = (Ok (Emails.of_text (max_emails self) (text resp)),
            record st w [EvGet (Website url) (Received resp)])).
Proof.
  pose proof (extract_run World http_get self url st) as Hrun.
  destruct (http_get (Website url) (world st)) as [o w0] eqn:Hget.
  split; [|split; [|split]].
  - destruct (scrape_attempt (max_emails self) o); rewrite Hrun; eauto.
  - intros e w H. inversion H; subst. exact Hrun.
  - intros resp w H Hbad. inversion H; subst. rewrite Hrun.
    cbn [scrape_attempt].
    destruct Hbad as [Hs | Ht].
    + destruct (Z.eqb_spec (status_code resp) 200); [contradiction | reflexivity].
    + rewrite Ht. cbn. now rewrite orb_true_r.
  - intros resp w H Hs Ht. inversion H; subst. rewrite Hrun.
    cbn [scrape_attempt]. rewrite Hs. cbn [Z.eqb Pos.eqb negb orb].
    destruct (String.eqb_spec (text resp) ""); [contradiction | reflexivity].
Qed.

(** X2.  The details request that succeeds: with a status outside 400-599
    and a body that is a JSON object, [get_place_details] returns the value
    under [result], or an empty record when the key is missing, after one
    request for the four fields, and logs nothing. *)
Theorem X2_details_success (pid : json) (st : state) (resp : Response)
    (w : World) (d : list (string * json)) :
  http_get (Details pid detail_fields (api_key self)) (world st)
  = (Received resp, w) ->
  ~ (400 <= status_code resp < 600)%Z ->
  json_body resp = Ok (JDict d) ->
  get_place_details pid st
  = (Ok (match lookup "result" d with Some v => v | None => JDict [] end),
     record st w [EvGet (Details pid detail_fields (api_key self)) (Received resp)]).
Proof.
  intros Hget Hs Hb.
  pose proof (get_place_details_run World http_get self pid st) as Hrun.
  cbv zeta in Hrun. rewrite Hget in Hrun. rewrite Hrun.
  cbn [details_attempt]. unfold raise_for_status.
  destruct (Z.leb_spec 400 (status_code resp));
    destruct (Z.ltb_spec (status_code resp) 600); cbn [andb]; try lia;
    rewrite Hb; reflexivity.
Qed.

(** X3.  A detail record that is not a JSON object (the body has [result]
    with null, a list, a string or a number) is returned as it is, and the
    place then raises [AttributeError] at [details.get]: the failure is not
    degraded. *)
Theorem X3_odd_detail_record_raises (place : json) (st : state)
    (r p pid v : json) (resp : Response) (w : World) (d : list (string * json)) :
  get place "rating" (JInt 0) = Ok r ->
  get place "price_level" (JInt 0) = Ok p ->
  lt r (min_rating self) "float" = Ok false ->
  gt p (Finite (inject_Z (max_price_level self))) "int" = Ok false ->
  get place "place_id" JNull = Ok pid ->
  http_get (Details pid detail_fields (api_key self)) (world st)
  = (Received resp, w) ->
  ~ (400 <= status_code resp < 600)%Z ->
  json_body resp = Ok (JDict d) ->
  lookup "result" d = Some v ->
  (forall d', v <> JDict d') ->
  place_step place st
  = (Raise (AttributeError v "get"),
     record st w [EvGet (Details pid detail_fields (api_key self)) (Received resp)]).
Proof.
  intros Hr Hp Hlt Hgt Hpid Hget Hs Hb Hres Hv.
  assert (Hd : get_place_details pid st
               = (Ok v, record st w
                    [EvGet (Details pid detail_fields (api_key self)) (Received resp)])).
  { pose proof (get_place_details_run World http_get self pid st) as Hrun.
    cbv zeta in Hrun. rewrite Hget in Hrun. rewrite Hrun.
    cbn [details_attempt]. unfold raise_for_status.
    destruct (Z.leb_spec 400 (status_code resp));
      destruct (Z.ltb_spec (status_code resp) 600); cbn [andb]; try lia;
      rewrite Hb; cbn [get]; now rewrite Hres. }
  unfold GooglePlacesSearch.place_step, GooglePlacesSearch.bind,
    GooglePlacesSearch.lift, GooglePlacesSearch.ret.
  rewrite Hr, Hp, Hlt, Hgt, Hpid, Hd.
  destruct v; try reflexivity. exfalso. now apply (Hv d0).
Qed.

(** X4.  A place the filter rejects costs nothing: when its rating is below
    [min_rating] (whatever its price), or its rating passes and its price is
    above [max_price_level], the step ends with no row, no request and no
    log line, and the loop goes on with the next place. *)
Theorem X4_rejected_place_costs_nothing (place : json) (st : state) (r : json)
    (q : num) :
  get place "rating" (JInt 0) = Ok r ->
  num_of r = Some q ->
  less q (min_rating self)
  \/ (exists p q', get place "price_level" (JInt 0) = Ok p
                   /\ num_of p = Some q'
                   /\ less (price_bound self) q') ->
  place_step place st = (Ok None, st)
  /\ forall rest acc fetched,
       for_places (place :: rest) acc fetched st = for_places rest acc fetched st.
Proof.
  intros Hr Hq Hbad.
  assert (Hstep : place_step place st = (Ok None, st)).
  { rewrite place_step_filter, Hr.
    destruct (PyFacts.get_dict _ _ _ _ Hr) as [d ->].
    destruct (PyFacts.get_total d "price_level" (JInt 0)) as [p Hp]. rewrite Hp.
    unfold lt. rewrite Hq.
    destruct (ltb q (min_rating self)) eqn:El; [reflexivity|].
    destruct Hbad as [Hlow | [p' [q' [Hp' [Hq' Hhigh]]]]].
    - apply PyFacts.ltb_less in Hlow. congruence.
    - rewrite Hp in Hp'. inversion Hp'; subst p'.
      unfold gt. rewrite Hq'.
      apply PyFacts.ltb_less in Hhigh. unfold price_bound in Hhigh.
      now rewrite Hhigh. }
  split; [exact Hstep|].
  intros rest acc fetched. now rewrite for_places_cons, Hstep.
Qed.

(** X5.  The default 0 stands in for a missing key only.  A rating that is
    present and not a number (null, a string, a list, an object) raises
    [TypeError] at the comparison, before any request; so does such a price
    level when the rating is not below [min_rating]. *)
Theorem X5_non_numeric_rating_raises (place : json) (st : state) (r : json) :
  get place "rating" (JInt 0) = Ok r ->
  (num_of r = None ->
   place_step place st
   = (Raise (TypeError ("'<' not supported between instances of '"
                          ++ type_name r ++ "' and 'float'")), st))
  /\ (forall p q,
         num_of r = Some q -> ~ less q (min_rating self) ->
         get place "price_level" (JInt 0) = Ok p ->
         num_of p = None ->
         place_step place st
         = (Raise (TypeError ("'>' not supported between instances of '"
                                ++ type_name p ++ "' and 'int'")), st)).
Proof.
  intros Hr.
  destruct (PyFacts.get_dict _ _ _ _ Hr) as [d Hd].
  destruct (get place "price_level" (JInt 0)) as [p0|e] eqn:Hp0;
    [|subst place; discriminate].
  split.
  - intros Hn. rewrite place_step_filter, Hr, Hp0. unfold lt. now rewrite Hn.
  - intros p q Hq Hle Hp Hn. inversion Hp; subst p0.
    rewrite place_step_filter, Hr, Hp0. unfold lt. rewrite Hq.
    destruct (ltb q (min_rating self)) eqn:El.
    + apply PyFacts.ltb_less in El. contradiction.
    + unfold gt. now rewrite Hn.
Qed.

(** X6.  With a negative [max_results] the loop is never entered: the
    component makes no request at all and returns the one-row table
    [No results found.], with any fuel. *)
Theorem X6_negative_max_results (fuel : nat) (st : state) :
  (max_results self < 0)%Z ->
  search_results fuel st
  = Some (Message "No results found.", set_status World "No results found." st).
Proof.
  intros Hneg.
  unfold GooglePlacesSearch.search_results, GooglePlacesSearch.search_body.
  rewrite while_loop_run.
  assert (Hm : (max_fetch <= 0)%Z).
  { unfold GooglePlacesSearch.max_fetch.
    destruct (Z.eqb_spec (max_results self) 0); lia. }
  destruct (Z.ltb_spec 0 max_fetch); [lia | reflexivity].
Qed.

(** X7.  When [max_results] is not negative, a run that returns sent the
    query exactly once, in the first event of the run, with the API key;
    every later text-search request carries a truthy page token and the API
    key, and no query.  When [max_results] is negative the run makes no
    text-search request at all. *)
Theorem X7_query_first_then_tokens (fuel : nat) (st st' : state) (df : DataFrame) :
  search_results fuel st = Some (df, st') ->
  exists added,
    trace st' = trace st ++ added
    /\ ((0 <= max_results self)%Z ->
        exists o rest,
          added = EvGet (TextSearch (Query (query self) (api_key self))) o :: rest
          /\ forall pre p o' post,
               rest = pre ++ EvGet (TextSearch p) o' :: post ->
               exists tok, truthy tok = true /\ p = PageToken tok (api_key self))
    /\ ((max_results self < 0)%Z -> More.count is_search added = 0).
Proof.
  intros Hrun.
  destruct (search_results_paging _ _ _ _ _ _ _ Hrun) as [added [Ht Hp]].
  exists added. split; [exact Ht|]. split.
  - intros Hpos.
    assert (Hm : (0 < max_fetch)%Z).
    { unfold GooglePlacesSearch.max_fetch.
      destruct (Z.eqb_spec (max_results self) 0); lia. }
    destruct (search_results_first _ _ _ _ _ _ _ Hm Hrun) as [o [rest Hfirst]].
    rewrite Ht in Hfirst. apply app_inv_head in Hfirst. subst added.
    exists o, rest. split; [reflexivity|].
    intros pre p o' post E.
    destruct (MoreFacts.paging_requests _ _ _ Hp
                (EvGet (TextSearch (Query (query self) (api_key self))) o :: pre)
                p o' post) as [[Hnil _] | [_ Hlater]].
    + rewrite E. reflexivity.
    + discriminate.
    + exact Hlater.
  - intros Hneg.
    assert (Hm : (max_fetch <= 0)%Z).
    { unfold GooglePlacesSearch.max_fetch.
      destruct (Z.eqb_spec (max_results self) 0); lia. }
    revert Hrun.
    unfold GooglePlacesSearch.search_results, GooglePlacesSearch.search_body.
    rewrite while_loop_run.
    destruct (Z.ltb_spec 0 max_fetch) as [Hlt|Hge]; [lia|].
    intros Hout; inversion Hout; subst. cbn [set_status trace] in Ht.
    rewrite <- (app_nil_r (trace st)) in Ht at 1.
    apply app_inv_head in Ht. subst added. reflexivity.
Qed.

(** X8.  The requests of a run that ends without the error table: one
    details request for each row of the table and no other; one site request
    for each row with a truthy website when scraping is on and no other; and
    one two-second sleep between two text-search requests and no other. *)
Theorem X8_request_budget (fuel : nat) (st st' : state) (df : DataFrame) :
  search_results fuel st = Some (df, st') ->
  (forall msg, df <> Error msg) ->
  exists added,
    trace st' = trace st ++ added
    /\ More.count More.is_details added = List.length (result_rows df)
    /\ More.count More.is_website added
       = List.length
           (filter (fun row => (scrape_emails self && truthy (website row))%bool)
                   (result_rows df))
    /\ More.count More.is_sleep added = Nat.pred (More.count is_search added)
    /\ (result_rows df <> [] -> 1 <= More.count is_search added).
Proof.
  intros Hrun Hne.
  destruct (search_results_run_events _ _ _ _ _ _ _ Hrun Hne) as [added [Ht Hev]].
  exists added. split; [exact Ht|].
  destruct (MoreFacts.run_events_facts _ _ _ _ Hev) as [H1 [H2 [H3 [H4 _]]]].
  now repeat split.
Qed.

(** X9.  The rows keep the order of the upstream: in a run that ends without
    the error table, the rows are, one for one and in order, the rows of a
    subsequence of the places of the pages received (same [place_id], same
    [name]); nothing is sorted and nothing is repeated. *)
Theorem X9_rows_follow_upstream_order (fuel : nat) (st st' : state) (df : DataFrame) :
  search_results fuel st = Some (df, st') ->
  (forall msg, df <> Error msg) ->
  exists added chosen,
    trace st' = trace st ++ added
    /\ More.subseq chosen (More.received added)
    /\ Forall2 More.row_of chosen (result_rows df).
Proof.
  intros Hrun Hne.
  destruct (search_results_run_events _ _ _ _ _ _ _ Hrun Hne) as [added [Ht Hev]].
  destruct (MoreFacts.run_events_facts _ _ _ _ Hev)
    as [_ [_ [_ [_ [chosen [Hs Hf]]]]]].
  exists added, chosen. split; [exact Ht|]. split; [exact Hs|].
  revert Hf. apply Forall2_impl. exact MoreFacts.built_from_row_of.
Qed.

(** *** Events of one kind only, and the status *)

Section Kind.

Variable ok : event -> bool.

Lemma adds_ret {A : Type} (a : A) : More.adds_only ok (ret World a).
Proof. intros st. exists []. cbn. rewrite app_nil_r. split; [reflexivity | constructor]. Qed.

Lemma adds_lift {A : Type} (r : res A) : More.adds_only ok (lift World r).
Proof. intros st. exists []. cbn. rewrite app_nil_r. split; [reflexivity | constructor]. Qed.

Lemma adds_bind {A B : Type} (m : M A) (f : A -> M B) :
  More.adds_only ok m -> (forall a, More.adds_only ok (f a)) ->
  More.adds_only ok (bind World m f).
Proof.
  intros Hm Hf st. unfold GooglePlacesSearch.bind.
  destruct (Hm st) as [l1 [E1 Q1]].
  destruct (m st) as [[a|e] st1]; cbn in E1.
  - destruct (Hf a st1) as [l2 [E2 Q2]]. exists (l1 ++ l2).
    rewrite E2, E1, app_assoc. split; [reflexivity | now apply Forall_app].
  - exists l1. now split.
Qed.

Lemma adds_try {A : Type} (m : M A) (h : exn -> M A) :
  More.adds_only ok m -> (forall e, More.adds_only ok (h e)) ->
  More.adds_only ok (try_except World m h).
Proof.
  intros Hm Hh st. unfold GooglePlacesSearch.try_except.
  destruct (Hm st) as [l1 [E1 Q1]].
  destruct (m st) as [[a|e] st1]; cbn in E1.
  - exists l1. now split.
  - destruct (Hh e st1) as [l2 [E2 Q2]]. exists (l1 ++ l2).
    rewrite E2, E1, app_assoc. split; [reflexivity | now apply Forall_app].
Qed.

Lemma adds_emit (ev : event) : ok ev = true -> More.adds_only ok (emit World ev).
Proof.
  intros H st. exists [ev]. cbn. split; [reflexivity|].
  constructor; [assumption | constructor].
Qed.

Lemma adds_get (req : request) :
  (forall o, ok (EvGet req o) = true) ->
  More.adds_only ok (requests_get World http_get req).
Proof.
  intros H st. unfold GooglePlacesSearch.requests_get.
  destruct (http_get req (world st)) as [o w].
  exists [EvGet req o]. split.
  - now destruct o.
  - constructor; [apply H | constructor].
Qed.

End Kind.

Lemma no_site_details (pid : json) : More.adds_only More.no_site (get_place_details pid).
Proof.
  unfold GooglePlacesSearch.get_place_details.
  apply adds_try.
  - apply adds_bind; [now apply adds_get|]. intros resp.
    apply adds_bind; [apply adds_lift|]. intros _.
    apply adds_bind; [apply adds_lift|]. intros data.
    apply adds_lift.
  - intros e. apply adds_bind; [now apply adds_emit|]. intros _. apply adds_ret.
Qed.

Lemma no_site_place_step (place : json) :
  scrape_emails self = false -> More.adds_only More.no_site (place_step place).
Proof.
  intros Hoff. unfold GooglePlacesSearch.place_step.
  apply adds_bind; [apply adds_lift|]. intros r.
  apply adds_bind; [apply adds_lift|]. intros p.
  apply adds_bind; [apply adds_lift|]. intros low.
  apply adds_bind; [destruct low; [apply adds_ret | apply adds_lift]|].
  intros rejected. destruct rejected; [apply adds_ret|].
  apply adds_bind; [apply adds_lift|]. intros pid.
  apply adds_bind; [apply no_site_details|]. intros details.
  apply adds_bind; [apply adds_lift|]. intros site.
  rewrite Hoff. cbn [andb].
  apply adds_bind; [apply adds_ret|]. intros email.
  apply adds_bind; [apply adds_lift|]. intros row.
  apply adds_ret.
Qed.

Lemma no_site_for_places (places : list json) (acc : list ResultRow) (fetched : Z) :
  scrape_emails self = false ->
  More.adds_only More.no_site (for_places places acc fetched).
Proof.
  intros Hoff.
  revert acc fetched; induction places as [|place rest IH]; intros acc fetched;
    cbn [GooglePlacesSearch.for_places].
  - apply adds_ret.
  - apply adds_bind; [now apply no_site_place_step|].
    intros [row|]; [|apply IH].
    destruct (fetched + 1 >=? max_fetch)%Z; [apply adds_ret | apply IH].
Qed.

Lemma no_site_page (params : search_params) (acc : list ResultRow) (fetched : Z) :
  scrape_emails self = false ->
  More.adds_only More.no_site (page params acc fetched).
Proof.
  intros Hoff. unfold GooglePlacesSearch.page.
  apply adds_bind; [now apply adds_get|]. intros response.
  apply adds_bind; [apply adds_lift|]. intros _.
  apply adds_bind; [apply adds_lift|]. intros data.
  apply adds_bind; [apply adds_lift|]. intros results.
  destruct (negb (truthy results)); [apply adds_ret|].
  apply adds_bind; [apply adds_lift|]. intros places.
  apply adds_bind; [now apply no_site_for_places|]. intros [rows f].
  apply adds_bind; [apply adds_lift|]. intros tok.
  destruct (negb (truthy tok) || (f >=? max_fetch)%Z)%bool; [apply adds_ret|].
  apply adds_bind; [now apply adds_emit|]. intros _. apply adds_ret.
Qed.

Lemma no_site_while_loop (fuel : nat) :
  scrape_emails self = false ->
  forall params acc fetched st r st',
    while_loop fuel params acc fetched st = Some (r, st') ->
    exists added,
      trace st' = trace st ++ added
      /\ Forall (fun ev => More.no_site ev = true) added.
Proof.
  intros Hoff.
  induction fuel as [|fuel IH]; intros params acc fetched st r st';
    rewrite while_loop_run.
  - destruct (fetched <? max_fetch)%Z; [discriminate|].
    intros H; inversion H; subst. exists []. rewrite app_nil_r. now split.
  - destruct (fetched <? max_fetch)%Z.
    2:{ intros H; inversion H; subst. exists []. rewrite app_nil_r. now split. }
    destruct (no_site_page params acc fetched Hoff st) as [l1 [E1 Q1]].
    destruct (page params acc fetched st) as [[[rows1|p1 rows1 f1]|e] st1];
      cbn [snd] in E1.
    + intros H; inversion H; subst. exists l1. now split.
    + intros H. destruct (IH _ _ _ _ _ _ H) as [l2 [E2 Q2]].
      exists (l1 ++ l2). rewrite E2, E1, app_assoc.
      split; [reflexivity | now apply Forall_app].
    + intros H; inversion H; subst. exists l1. now split.
Qed.

(** X10.  With scraping off no website is ever requested, whatever the
    upstream does and however the run ends, and no row has e-mails. *)
Theorem X10_scraping_off (fuel : nat) (st st' : state) (df : DataFrame) :
  scrape_emails self = false ->
  search_results fuel st = Some (df, st') ->
  (exists added,
      trace st' = trace st ++ added
      /\ Forall (fun ev => More.is_website ev = false) added)
  /\ Forall (fun row => emails row = None) (result_rows df).
Proof.
  intros Hoff Hrun. split.
  - revert Hrun.
    unfold GooglePlacesSearch.search_results, GooglePlacesSearch.search_body.
    destruct (while_loop fuel _ [] 0%Z st) as [[[rows|e] st1]|] eqn:E;
      [| |discriminate];
      destruct (no_site_while_loop fuel Hoff _ _ _ _ _ _ E) as [added [Ht Q]];
      assert (Q' : Forall (fun ev => More.is_website ev = false) added)
        by (revert Q; apply Forall_impl; intros ev; unfold More.no_site;
            now destruct (More.is_website ev)).
    + destruct rows; intros H; inversion H; subst; exists added; now split.
    + intros H; inversion H; subst. exists (added ++ [EvLog (Repr e)]). split.
      * cbn. rewrite Ht. now rewrite <- app_assoc.
      * apply Forall_app. split; [exact Q'|]. constructor; [reflexivity|constructor].
  - apply (search_results_rows World http_get self
             (fun row => emails row = None)) with (fuel := fuel) (st := st) (st' := st');
      [|exact Hrun].
    intros place s row s' H.
    destruct (place_step_inv _ _ _ _ _ _ _ H)
      as [r [p [pid [details [site [email [s1 H']]]]]]].
    destruct H' as [_ [_ [_ [_ [_ [_ [_ [Hmail Hrow]]]]]]]].
    destruct (RowFacts.build_row_fields _ _ _ _ _ _ _ _ Hrow)
      as [_ [_ [_ [_ [Ee _]]]]].
    rewrite Hoff in Hmail. cbn [andb] in Hmail. rewrite Ee. congruence.
Qed.

Lemma status_bind {A B : Type} (m : M A) (f : A -> M B) :
  More.keeps_status m -> (forall a, More.keeps_status (f a)) ->
  More.keeps_status (bind World m f).
Proof.
  intros Hm Hf st. unfold GooglePlacesSearch.bind.
  pose proof (Hm st) as E1.
  destruct (m st) as [[a|e] st1]; cbn in E1; [|exact E1].
  now rewrite Hf.
Qed.

Lemma status_try {A : Type} (m : M A) (h : exn -> M A) :
  More.keeps_status m -> (forall e, More.keeps_status (h e)) ->
  More.keeps_status (try_except World m h).
Proof.
  intros Hm Hh st. unfold GooglePlacesSearch.try_except.
  pose proof (Hm st) as E1.
  destruct (m st) as [[a|e] st1]; cbn in E1; [exact E1|].
  now rewrite Hh.
Qed.

Lemma status_ret {A : Type} (a : A) : More.keeps_status (ret World a).
Proof. intros st. reflexivity. Qed.

Lemma status_lift {A : Type} (r : res A) : More.keeps_status (lift World r).
Proof. intros st. reflexivity. Qed.

Lemma status_emit (ev : event) : More.keeps_status (emit World ev).
Proof. intros st. reflexivity. Qed.

Lemma status_get (req : request) : More.keeps_status (requests_get World http_get req).
Proof.
  intros st. unfold GooglePlacesSearch.requests_get.
  destruct (http_get req (world st)) as [[e|r] w]; reflexivity.
Qed.

Lemma status_place_step (place : json) : More.keeps_status (place_step place).
Proof.
  unfold GooglePlacesSearch.place_step,
    GooglePlacesSearch.get_place_details,
    GooglePlacesSearch.extract_valid_emails_from_website,
    GooglePlacesSearch.log.
  repeat first
    [ apply status_ret | apply status_lift | apply status_emit | apply status_get
    | apply status_try; [|intros ?]
    | apply status_bind; [|intros ?]
    | match goal with
      | |- More.keeps_status (if ?b then _ else _) => destruct b
      end ].
Qed.

Lemma status_for_places (places : list json) (acc : list ResultRow) (fetched : Z) :
  More.keeps_status (for_places places acc fetched).
Proof.
  revert acc fetched; induction places as [|place rest IH]; intros acc fetched;
    cbn [GooglePlacesSearch.for_places].
  - apply status_ret.
  - apply status_bind; [apply status_place_step|].
    intros [row|]; [|apply IH].
    destruct (fetched + 1 >=? max_fetch)%Z; [apply status_ret | apply IH].
Qed.

Lemma status_page (params : search_params) (acc : list ResultRow) (fetched : Z) :
  More.keeps_status (page params acc fetched).
Proof.
  unfold GooglePlacesSearch.page, GooglePlacesSearch.sleep.
  apply status_bind; [apply status_get|]. intros response.
  apply status_bind; [apply status_lift|]. intros _.
  apply status_bind; [apply status_lift|]. intros data.
  apply status_bind; [apply status_lift|]. intros results.
  destruct (negb (truthy results)); [apply status_ret|].
  apply status_bind; [apply status_lift|]. intros places.
  apply status_bind; [apply status_for_places|]. intros [rows f].
  apply status_bind; [apply status_lift|]. intros tok.
  destruct (negb (truthy tok) || (f >=? max_fetch)%Z)%bool; [apply status_ret|].
  apply status_bind; [apply status_emit|]. intros _. apply status_ret.
Qed.

Lemma status_while_loop (fuel : nat) :
  forall params acc fetched st r st',
    while_loop fuel params acc fetched st = Some (r, st') ->
    status st' = status st.
Proof.
  induction fuel as [|fuel IH]; intros params acc fetched st r st';
    rewrite while_loop_run.
  - destruct (fetched <? max_fetch)%Z; [discriminate|].
    intros H; now inversion H.
  - destruct (fetched <? max_fetch)%Z; [|intros H; now inversion H].
    pose proof (status_page params acc fetched st) as E1.
    destruct (page params acc fetched st) as [[[rows1|p1 rows1 f1]|e] st1];
      cbn [snd] in E1.
    + intros H; inversion H; subst. exact E1.
    + intros H. rewrite (IH _ _ _ _ _ _ H). exact E1.
    + intros H; inversion H; subst. exact E1.
Qed.

(** X11.  The status is written with the two one-row tables only: a run
    that returns rows leaves the status as it found it; the message table
    comes with the status [No results found.]; the error table with
    [Error: ] and the message. *)
Theorem X11_status_written_with_messages_only
    (fuel : nat) (st st' : state) (df : DataFrame) :
  search_results fuel st = Some (df, st') ->
  match df with
  | Table rows => rows <> [] /\ status st' = status st
  | Message msg => msg = "No results found." /\ status st' = Some msg
  | Error msg => status st' = Some ("Error: " ++ msg)%string
  end.
Proof.
  unfold GooglePlacesSearch.search_results, GooglePlacesSearch.search_body.
  destruct (while_loop fuel _ [] 0%Z st) as [[[rows|e] st1]|] eqn:E;
    [| |discriminate]; pose proof (status_while_loop _ _ _ _ _ _ _ E) as Hs.
  - destruct rows; intros H; inversion H; subst.
    + now split.
    + split; [discriminate | exact Hs].
  - intros H; inversion H; subst. reflexivity.
Qed.

Lemma quiet_count (l : list event) : quiet l -> More.count is_search l = 0.
Proof.
  unfold quiet. induction 1 as [|ev l Hev Hl IH]; [reflexivity|].
  rewrite MoreFacts.count_cons, Hev, IH. reflexivity.
Qed.

(** X16.  A first page without a truthy cursor ends the run: whatever else
    the upstream does, the function returns with any positive fuel, after at
    most one text-search request. *)
Theorem X16_no_cursor_ends_run (fuel : nat) (st : state) :
  (forall tok,
      cursor_of (fst (http_get (TextSearch (Query (query self) (api_key self)))
                        (world st))) = Some tok ->
      truthy tok = false) ->
  exists df st' added,
    search_results (S fuel) st = Some (df, st')
    /\ trace st' = trace st ++ added
    /\ More.count is_search added <= 1.
Proof.
  intros Hcur.
  unfold GooglePlacesSearch.search_results, GooglePlacesSearch.search_body.
  rewrite while_loop_run.
  destruct (0 <? max_fetch)%Z.
  2:{ do 3 eexists. split; [reflexivity|]. cbn.
      split; [now rewrite app_nil_r | cbn; lia]. }
  pose proof (page_trace World http_get self
                (Query (query self) (api_key self)) [] 0%Z st) as Hp.
  destruct (http_get (TextSearch (Query (query self) (api_key self))) (world st))
    as [o w]. cbn [fst] in Hcur.
  destruct Hp as [added [Ht Hshape]].
  destruct (page (Query (query self) (api_key self)) [] 0%Z st)
    as [[[rows|p' rows f]|e] st1]; cbn [fst snd] in *.
  - exists (match rows with [] => Message "No results found." | _ => Table rows end).
    assert (Hc : More.count is_search
                   (EvGet (TextSearch (Query (query self) (api_key self))) o :: added)
                 <= 1)
      by (rewrite MoreFacts.count_cons, (quiet_count _ Hshape); cbn; lia).
    destruct rows; eexists; eexists; (split; [reflexivity|]);
      (split; [exact Ht | exact Hc]).
  - exfalso. destruct Hshape as [mid [tok [_ [_ [Hc [Htr _]]]]]].
    rewrite (Hcur tok Hc) in Htr. discriminate.
  - exists (Error (exn_str e)). eexists.
    exists (EvGet (TextSearch (Query (query self) (api_key self))) o
              :: added ++ [EvLog (Repr e)]).
    split; [reflexivity|]. split.
    + cbn [trace set_status]. rewrite Ht, <- app_assoc. reflexivity.
    + rewrite MoreFacts.count_cons, MoreFacts.count_app, (quiet_count _ Hshape).
      cbn. lia.
Qed.

End ComponentMore.

(** ** Further properties of the text processing *)

Module TextMore.
Import Emails More.

Lemma append_nil_r (s : string) : (s ++ "")%string = s.
Proof. induction s as [|c s IH]; cbn; [reflexivity | now rewrite IH]. Qed.

Lemma append_assoc (a b c : string) :
  ((a ++ b) ++ c)%string = (a ++ b ++ c)%string.
Proof. induction a as [|x a IH]; cbn; [reflexivity | now rewrite IH]. Qed.

Lemma compare_refl (s : string) : String.compare s s = Eq.
Proof.
  pose proof (String.compare_antisym s s) as H.
  destruct (String.compare s s); cbn in H; congruence.
Qed.

Lemma ascending_NoDup (l : list string) : Spec.ascending l -> NoDup l.
Proof.
  unfold Spec.ascending. induction 1 as [|x l Hs IH Hx]; constructor.
  - intros Hin. rewrite Forall_forall in Hx. specialize (Hx x Hin).
    unfold String.ltb in Hx. now rewrite compare_refl in Hx.
  - exact IH.
Qed.

Lemma insert_length (x : string) (l : list string) :
  List.length (insert x l) = S (List.length l).
Proof.
  induction l as [|y l IH]; cbn; [reflexivity|].
  destruct (String.leb x y); cbn; [reflexivity | now rewrite IH].
Qed.

Lemma sorted_length (l : list string) : List.length (sorted l) = List.length l.
Proof.
  induction l as [|x l IH]; cbn; [reflexivity|].
  now rewrite insert_length, IH.
Qed.

Lemma slice_to_kept {A : Type} (m : Z) (l : list A) :
  Z.of_nat (List.length (Py.slice_to m l)) = kept m (Z.of_nat (List.length l)).
Proof.
  unfold Py.slice_to, kept.
  destruct (Z.leb_spec 0 m); rewrite length_firstn; lia.
Qed.

(** X12.  The list of addresses has no duplicates, and when the cap does not
    cut it, it holds exactly the addresses found in the page that do not
    contain a denylisted substring: nothing valid is lost. *)
Theorem X12_nothing_valid_is_lost (m : Z) (text : string) :
  NoDup (valid_emails m text)
  /\ ((Z.of_nat (List.length (distinct_valid text)) <= m)%Z ->
      forall e,
        In e (valid_emails m text)
        <-> In e (Re.findall text) /\ ~ Spec.denylisted e).
Proof.
  split.
  - apply ascending_NoDup.
    now destruct (EmailsFacts.valid_emails_spec m text) as [_ [_ [H _]]].
  - intros Hcap e. unfold valid_emails. cbv zeta.
    fold (distinct_valid text).
    assert (Hall : Py.slice_to m (sorted (distinct_valid text))
                   = sorted (distinct_valid text)).
    { unfold Py.slice_to. destruct (Z.leb_spec 0 m); [|lia].
      apply firstn_all2. rewrite sorted_length. lia. }
    rewrite Hall, EmailsFacts.sorted_In. unfold distinct_valid, py_set.
    rewrite filter_In, nodup_In, EmailsFacts.is_valid_spec. reflexivity.
Qed.

(** X13.  How many addresses the field holds: of the [n] distinct valid
    addresses of the page the slice keeps [min(m, n)] when [max_emails = m]
    is not negative and [max(0, n + m)] when it is; and the field is absent
    exactly when that number is 0 (no valid address, a cap of 0, or a
    negative cap that cuts everything). *)
Theorem X13_number_of_addresses (m : Z) (text : string) :
  Z.of_nat (List.length (valid_emails m text))
  = kept m (Z.of_nat (List.length (distinct_valid text)))
  /\ (of_text m text = None
      <-> kept m (Z.of_nat (List.length (distinct_valid text))) = 0%Z).
Proof.
  assert (Hlen : Z.of_nat (List.length (valid_emails m text))
                 = kept m (Z.of_nat (List.length (distinct_valid text)))).
  { unfold valid_emails. cbv zeta. fold (distinct_valid text).
    now rewrite slice_to_kept, sorted_length. }
  split; [exact Hlen|].
  rewrite <- Hlen. unfold of_text.
  destruct (valid_emails m text) as [|e l]; cbn [List.length].
  - split; reflexivity.
  - split; [discriminate | lia].
Qed.

Lemma split_from_two (cur : string) (c c' : ascii) (s : string) :
  split_from cur (String c (String c' s))
  = if (Ascii.eqb c "," && Ascii.eqb c' " ")%bool
    then cur :: split_from EmptyString s
    else split_from (cur ++ String c EmptyString)%string (String c' s).
Proof. reflexivity. Qed.

Lemma comma_free_tail (c : ascii) (e : string) :
  comma_free (String c e) -> c <> ","%char /\ comma_free e.
Proof.
  intros H. split.
  - apply H. now left.
  - intros x Hx. apply H. now right.
Qed.

(** Reading a piece without comma up to the end of the field. *)
Lemma split_from_last (e : string) :
  forall cur, comma_free e -> split_from cur e = [(cur ++ e)%string].
Proof.
  induction e as [|c e IH]; intros cur Hfree.
  - cbn. now rewrite append_nil_r.
  - destruct (comma_free_tail _ _ Hfree) as [Hc Hfree'].
    destruct e as [|c' e'].
    + reflexivity.
    + rewrite split_from_two.
      destruct (Ascii.eqb_spec c ","); [contradiction|]. cbn [andb].
      rewrite (IH _ Hfree'). now rewrite append_assoc.
Qed.

(** Reading a piece without comma up to a separator. *)
Lemma split_from_piece (e : string) :
  forall cur rest,
    comma_free e ->
    split_from cur (e ++ ", " ++ rest)
    = (cur ++ e)%string :: split_from EmptyString rest.
Proof.
  induction e as [|c e IH]; intros cur rest Hfree.
  - cbn [append]. rewrite split_from_two. cbn. now rewrite append_nil_r.
  - destruct (comma_free_tail _ _ Hfree) as [Hc Hfree'].
    specialize (IH (cur ++ String c EmptyString)%string rest Hfree').
    change (String c e ++ ", " ++ rest)%string
      with (String c (e ++ ", " ++ rest))%string.
    destruct (e ++ ", " ++ rest)%string as [|c' s'] eqn:E.
    + destruct e; discriminate E.
    + rewrite split_from_two.
      destruct (Ascii.eqb_spec c ","); [contradiction|]. cbn [andb].
      rewrite IH. now rewrite append_assoc.
Qed.

Lemma split_concat (e : string) (es : list string) :
  Forall comma_free (e :: es) ->
  split_comma_space (String.concat ", " (e :: es)) = e :: es.
Proof.
  unfold split_comma_space. revert e.
  induction es as [|e2 es IH]; intros e Hfree;
    inversion Hfree as [|? ? He Hes]; subst.
  - cbn. now rewrite split_from_last.
  - change (String.concat ", " (e :: e2 :: es))
      with (e ++ ", " ++ String.concat ", " (e2 :: es))%string.
    rewrite (split_from_piece e _ _ He). cbn [append]. now rewrite IH.
Qed.

Lemma email_shape_comma_free (e : string) : Spec.email_shape e -> comma_free e.
Proof.
  intros [lo [dm [tl [E [_ [Hlo [_ [Hdm [_ Htl]]]]]]]]] c Hin Hc. subst c.
  rewrite E in Hin. rewrite forallb_forall in Hlo, Hdm, Htl.
  apply in_app_or in Hin. destruct Hin as [Hin | [Hin | Hin]].
  - now apply Hlo in Hin.
  - discriminate Hin.
  - apply in_app_or in Hin. destruct Hin as [Hin | [Hin | Hin]].
    + now apply Hdm in Hin.
    + discriminate Hin.
    + now apply Htl in Hin.
Qed.

(** X14.  The field can be read back: splitting a present [emails] field at
    the separator (a comma and a space) gives back the list of addresses
    that was joined, since no address holds a comma. *)
Theorem X14_field_splits_back (m : Z) (text field : string) :
  of_text m text = Some field ->
  split_comma_space field = valid_emails m text.
Proof.
  intros H. destruct (EmailsFacts.of_text_some _ _ _ H) as [Hne ->].
  destruct (EmailsFacts.valid_emails_spec m text) as [Hin _].
  destruct (valid_emails m text) as [|e es]; [contradiction|].
  apply split_concat.
  rewrite Forall_forall in *. intros x Hx.
  apply email_shape_comma_free.
  exact (proj1 (findall_sound text x (Hin x Hx))).
Qed.

End TextMore.

(** ** The matcher on an address that stands alone *)

Module ReMore.
Import Re.

Lemma greedy_first (lo : nat) (rest : nat -> option nat) (j r : nat) :
  forall k,
    lo <= j -> j <= k -> rest j = Some r ->
    (forall i, j < i <= k -> rest i = None) ->
    greedy lo rest k = Some r.
Proof.
  induction k as [|k IH]; intros Hlo Hjk Hj Habove.
  - assert (j = 0) by lia. assert (lo = 0) by lia. subst j lo. cbn.
    now rewrite Hj.
  - cbn [greedy]. destruct (Nat.ltb_spec (S k) lo); [lia|].
    destruct (Nat.eq_dec j (S k)) as [->|Hne].
    + now rewrite Hj.
    + rewrite (Habove (S k)) by lia.
      apply IH; try assumption; try lia.
      intros i Hi. apply Habove. lia.
Qed.

Lemma span_all (p : ascii -> bool) (l : list ascii) :
  forallb p l = true -> span p l = List.length l.
Proof.
  induction l as [|c l IH]; cbn; [reflexivity|].
  intros H. apply andb_prop in H. destruct H as [Hc Hl].
  now rewrite Hc, IH.
Qed.

Lemma span_stop (p : ascii -> bool) (l rest : list ascii) (c : ascii) :
  forallb p l = true -> p c = false ->
  span p (l ++ c :: rest) = List.length l.
Proof.
  induction l as [|x l IH]; cbn; intros Hl Hc.
  - now rewrite Hc.
  - apply andb_prop in Hl. destruct Hl as [Hx Hl].
    now rewrite Hx, IH.
Qed.

Lemma nth_error_mid {A : Type} (l rest : list A) (c : A) :
  nth_error (l ++ c :: rest) (List.length l) = Some c.
Proof. induction l as [|x l IH]; cbn; [reflexivity | exact IH]. Qed.

Lemma nth_error_beyond {A : Type} (l rest : list A) (c : A) (i : nat) :
  nth_error (l ++ c :: rest) (S (List.length l) + i) = nth_error rest i.
Proof. induction l as [|x l IH]; cbn; [reflexivity | exact IH]. Qed.

Lemma skipn_mid {A : Type} (l rest : list A) (c : A) :
  skipn (S (List.length l)) (l ++ c :: rest) = rest.
Proof. induction l as [|x l IH]; cbn; [reflexivity | exact IH]. Qed.

Lemma alpha_is_domain (c : ascii) : is_alpha c = true -> is_domain c = true.
Proof. unfold is_domain. intros ->. reflexivity. Qed.

Lemma alpha_is_word (c : ascii) : is_alpha c = true -> is_word c = true.
Proof. unfold is_word. intros ->. reflexivity. Qed.

Lemma at_is_false_in (p : ascii -> bool) (l : list ascii) (i : nat) (c : ascii) :
  forallb p l = true -> p c = false -> at_is l i c = false.
Proof.
  intros Hl Hc. unfold at_is.
  destruct (nth_error l i) as [x|] eqn:E; [|reflexivity].
  apply nth_error_In in E. rewrite forallb_forall in Hl.
  destruct (Ascii.eqb_spec x c); [|reflexivity].
  subst x. apply Hl in E. congruence.
Qed.

(** One attempt at the start of an address that stands alone and begins
    with a word character consumes it whole. *)
Lemma match_here_standalone (lo dm tl : list ascii) :
  lo <> [] -> forallb is_local lo = true ->
  dm <> [] -> forallb is_domain dm = true ->
  2 <= List.length tl -> forallb is_alpha tl = true ->
  word_opt (hd_error (lo ++ "@"%char :: dm ++ "."%char :: tl)) = true ->
  match_here None (lo ++ "@"%char :: dm ++ "."%char :: tl)
  = Some (List.length (lo ++ "@"%char :: dm ++ "."%char :: tl)).
Proof.
  intros Hlo_ne Hlo Hdm_ne Hdm Htl_len Htl Hfirst.
  set (s := lo ++ "@"%char :: dm ++ "."%char :: tl).
  assert (Hlen_lo : 1 <= List.length lo) by (destruct lo; [congruence | cbn; lia]).
  assert (Hlen_dm : 1 <= List.length dm) by (destruct dm; [congruence | cbn; lia]).
  assert (Hs2 : s = (lo ++ "@"%char :: dm) ++ "."%char :: tl).
  { unfold s. rewrite <- app_assoc. reflexivity. }
  assert (Hlen2 : List.length (lo ++ "@"%char :: dm)
                  = S (List.length lo) + List.length dm).
  { rewrite length_app. cbn. lia. }
  assert (Hlen : List.length s
                 = S (S (List.length lo) + List.length dm) + List.length tl).
  { rewrite Hs2, length_app, Hlen2. cbn. lia. }
  unfold match_here.
  assert (B0 : boundary None s 0 = true).
  { unfold boundary. cbn [before word_opt xorb].
    replace (nth_error s 0) with (hd_error s) by (now destruct s).
    exact Hfirst. }
  rewrite B0.
  assert (Hspan_lo : span is_local s = List.length lo)
    by (apply span_stop; [exact Hlo | reflexivity]).
  rewrite Hspan_lo.
  (* the end of the address is a word boundary *)
  assert (Bend : boundary None s (List.length s) = true).
  { unfold boundary.
    assert (Hnone : nth_error s (List.length s) = None)
      by (apply nth_error_None; lia).
    rewrite Hnone. cbn [word_opt]. rewrite xorb_false_r.
    destruct (exists_last (l := tl)) as [tl' [x Etl]];
      [intros E; rewrite E in Htl_len; cbn in Htl_len; lia|].
    assert (Hsx : s = (lo ++ "@"%char :: dm ++ "."%char :: tl') ++ [x]).
    { unfold s. rewrite Etl. rewrite <- !app_assoc. cbn.
      rewrite <- !app_assoc. reflexivity. }
    assert (Hbefore : before None s (List.length s) = Some x).
    { rewrite Hsx at 2. rewrite length_app. cbn [List.length].
      rewrite Nat.add_1_r. cbn [before]. rewrite Hsx. apply nth_error_mid. }
    rewrite Hbefore. cbn [word_opt]. apply alpha_is_word.
    rewrite forallb_forall in Htl. apply Htl. rewrite Etl.
    apply in_or_app. right. now left. }
  (* the letters after the last dot *)
  assert (Htail : greedy 2
            (fun l => if boundary None s (S (S (List.length lo) + List.length dm) + l)
                      then Some (S (S (List.length lo) + List.length dm) + l)
                      else None)
            (span is_alpha (skipn (S (S (List.length lo) + List.length dm)) s))
          = Some (List.length s)).
  { assert (Hskip : skipn (S (S (List.length lo) + List.length dm)) s = tl)
      by (rewrite Hs2, <- Hlen2; apply skipn_mid).
    rewrite Hskip, (span_all _ _ Htl).
    apply (greedy_first _ _ (List.length tl)); [lia | lia | | intros i Hi; lia].
    rewrite <- Hlen, Bend. reflexivity. }
  (* the domain: the last dot is the first the matcher accepts *)
  assert (Hdom : greedy 1
            (fun d => if at_is s (S (List.length lo) + d) "."
                      then greedy 2
                             (fun l => if boundary None s (S (S (List.length lo) + d) + l)
                                       then Some (S (S (List.length lo) + d) + l)
                                       else None)
                             (span is_alpha (skipn (S (S (List.length lo) + d)) s))
                      else None)
            (span is_domain (skipn (S (List.length lo)) s))
          = Some (List.length s)).
  { assert (Hskip : skipn (S (List.length lo)) s = dm ++ "."%char :: tl)
      by (unfold s; apply skipn_mid).
    assert (Hat : forall d, at_is s (S (List.length lo) + d) "."
                            = at_is (dm ++ "."%char :: tl) d ".").
    { intros d. unfold at_is. now rewrite <- Hskip, nth_error_skipn. }
    rewrite Hskip.
    assert (Hspan : span is_domain (dm ++ "."%char :: tl)
                    = S (List.length dm) + List.length tl).
    { rewrite span_all.
      - rewrite length_app. cbn. lia.
      - rewrite forallb_app, Hdm. cbn.
        rewrite forallb_forall in *. intros x Hx.
        apply alpha_is_domain. now apply Htl. }
    rewrite Hspan.
    apply (greedy_first _ _ (List.length dm)); [lia | lia | | ].
    - rewrite Hat. unfold at_is at 1. rewrite nth_error_mid. cbn.
      exact Htail.
    - intros i Hi. rewrite Hat. unfold at_is.
      replace i with (S (List.length dm) + (i - S (List.length dm))) by lia.
      rewrite nth_error_beyond.
      fold (at_is tl (i - S (List.length dm)) ".").
      now rewrite (at_is_false_in is_alpha). }
  apply (greedy_first _ _ (List.length lo)); [lia | lia | | intros i Hi; lia].
  unfold at_is at 1. unfold s at 1. rewrite nth_error_mid.
  rewrite Ascii.eqb_refl. exact Hdom.
Qed.

Lemma scan_skips (s : list ascii) :
  forall prev skip, List.length s <= skip -> scan prev s skip = [].
Proof.
  induction s as [|c s IH]; intros prev skip Hlen; cbn.
  - reflexivity.
  - destruct skip as [|k]; [cbn in Hlen; lia|].
    apply IH. cbn in Hlen. lia.
Qed.

(** X15.  An address that stands alone is found whole: on a text that is
    just an address of the pattern's form (a local part, [@], a domain, a
    dot and at least two letters) that begins with a word character,
    [re.findall] returns that address and nothing else. *)
Theorem X15_standalone_address_found (e : string) :
  Spec.email_shape e ->
  word_opt (hd_error (list_ascii_of_string e)) = true ->
  findall e = [e].
Proof.
  intros [lo [dm [tl [E [Hlo_ne [Hlo [Hdm_ne [Hdm [Htl_len Htl]]]]]]]]] Hfirst.
  unfold findall. rewrite E in *.
  pose proof (match_here_standalone lo dm tl Hlo_ne Hlo Hdm_ne Hdm Htl_len Htl Hfirst)
    as Hm.
  destruct (lo ++ "@"%char :: dm ++ "."%char :: tl) as [|c s] eqn:Es.
  - destruct lo; discriminate Es.
  - cbn [scan]. rewrite Hm. rewrite firstn_all.
    rewrite scan_skips by (cbn; lia).
    rewrite <- E. now rewrite string_of_list_ascii_of_string.
Qed.

(** The scan of [re.findall] takes its matches from disjoint parts of the
    text, in the order of the text. *)
Lemma scan_weave (s : list ascii) :
  forall prev skip,
    skip <= List.length s ->
    exists gaps tail,
      List.length gaps = List.length (scan prev s skip)
      /\ skipn skip s = More.weave gaps (scan prev s skip) ++ tail.
Proof.
  induction s as [|c s IH]; intros prev skip Hskip.
  - exists [], []. cbn in Hskip. assert (skip = 0) by lia. subst. now split.
  - assert (Hnone : exists gaps tail,
               List.length gaps = List.length (scan (Some c) s 0)
               /\ c :: s = More.weave gaps (scan (Some c) s 0) ++ tail).
    { destruct (IH (Some c) 0) as [gaps [tail [Hl Hs]]]; [lia|]. cbn in Hs.
      destruct (scan (Some c) s 0) as [|m ms].
      - exists [], (c :: s). now split.
      - destruct gaps as [|g gaps]; [discriminate Hl|].
        exists ((c :: g) :: gaps), tail. split; [exact Hl|].
        cbn. cbn in Hs. now rewrite Hs. }
    destruct skip as [|k]; cbn [scan skipn].
    + destruct (match_here prev (c :: s)) as [len|] eqn:Hm; [|exact Hnone].
      destruct (ReFacts.match_here_shape _ _ _ Hm) as [[lo [dm [tl [E _]]]] [Hlen _]].
      destruct len as [|len]; [destruct lo; discriminate E|].
      assert (Hle : len <= List.length s).
      { rewrite length_firstn in Hlen. cbn [List.length] in Hlen. lia. }
      destruct (IH (Some c) len Hle) as [gaps [tail [Hl Hs]]].
      replace (S len - 1) with len by lia.
      exists ([] :: gaps), tail. split; [cbn; now rewrite Hl|].
      cbn [More.weave app]. rewrite list_ascii_of_string_of_list_ascii.
      rewrite <- app_assoc, <- Hs.
      change (skipn len s) with (skipn (S len) (c :: s)).
      now rewrite firstn_skipn.
    + apply IH. cbn in Hskip. lia.
Qed.

(** X17.  The addresses [re.findall] reports are disjoint parts of the page,
    in page order: the text is a gap, the first match, a gap, the second
    match, and so on, and a rest. *)
Theorem X17_matches_are_disjoint_in_order (text : string) :
  exists gaps tail,
    List.length gaps = List.length (findall text)
    /\ list_ascii_of_string text = More.weave gaps (findall text) ++ tail.
Proof.
  unfold findall.
  destruct (scan_weave (list_ascii_of_string text) None 0) as [gaps [tail H]];
    [lia|].
  exists gaps, tail. exact H.
Qed.

End ReMore.

(** ** The further properties at concrete inputs *)

Import GooglePlacesSearch.

Lemma X1_witness :
  extract_valid_emails_from_website unit (Scenario.serve Scenario.down)
    Scenario.cfg (JStr "http://a.test") Scenario.st0
  = (Ok None,
     Spec.record Scenario.st0 tt
       [EvGet (Website (JStr "http://a.test")) (Failed Scenario.connection_error);
        EvLog (ScrapeFailed (JStr "http://a.test") Scenario.connection_error)])
  /\ extract_valid_emails_from_website unit (Scenario.serve Scenario.broken)
       Scenario.cfg (JStr "http://a.test") Scenario.st0
     = (Ok None,
        Spec.record Scenario.st0 tt
          [EvGet (Website (JStr "http://a.test")) Scenario.server_error])
  /\ extract_valid_emails_from_website unit (Scenario.serve Scenario.two_pages)
       Scenario.cfg (JStr "http://a.test") Scenario.st0
     = (Ok (Emails.of_text 3 Scenario.site_text),
        Spec.record Scenario.st0 tt
          [EvGet (Website (JStr "http://a.test"))
             (Scenario.html_page Scenario.site_text)]).
Proof.
  split; [|split].
  - destruct (X1_scraper_outcomes unit (Scenario.serve Scenario.down) Scenario.cfg
                (JStr "http://a.test") Scenario.st0) as [_ [H _]].
    apply (H Scenario.connection_error tt). reflexivity.
  - destruct (X1_scraper_outcomes unit (Scenario.serve Scenario.broken) Scenario.cfg
                (JStr "http://a.test") Scenario.st0) as [_ [_ [H _]]].
    eapply (H _ tt); [reflexivity | left; cbn; discriminate].
  - destruct (X1_scraper_outcomes unit (Scenario.serve Scenario.two_pages)
                Scenario.cfg (JStr "http://a.test") Scenario.st0) as [_ [_ [_ H]]].
    apply (H {| status_code := 200; http_error := "";
                text := Scenario.site_text;
                json_body := Raise (Exn "JSONDecodeError" "Expecting value") |} tt);
      [reflexivity | reflexivity | cbn; discriminate].
Defined.

Lemma X2_witness :
  get_place_details unit (Scenario.serve Scenario.two_pages) Scenario.cfg
    (JStr "pa") Scenario.st0
  = (Ok Scenario.details_a,
     Spec.record Scenario.st0 tt
       [EvGet (Details (JStr "pa") detail_fields "KEY")
          (Scenario.json_page (JDict [("result", Scenario.details_a)]))]).
Proof.
  eapply (X2_details_success unit (Scenario.serve Scenario.two_pages) Scenario.cfg
            (JStr "pa") Scenario.st0 _ tt [("result", Scenario.details_a)]).
  - reflexivity.
  - cbn. lia.
  - reflexivity.
Defined.

Lemma X3_witness :
  place_step unit (Scenario.serve ScenarioMore.null_record) Scenario.cfg
    Scenario.place_a Scenario.st0
  = (Raise (AttributeError JNull "get"),
     Spec.record Scenario.st0 tt
       [EvGet (Details (JStr "pa") detail_fields "KEY")
          (Scenario.json_page (JDict [("result", JNull)]))]).
Proof.
  eapply (X3_odd_detail_record_raises unit (Scenario.serve ScenarioMore.null_record)
            Scenario.cfg Scenario.place_a Scenario.st0
            (JFloat (Finite (9 # 2))) (JInt 2) (JStr "pa") JNull _ tt [("result", JNull)]).
  - reflexivity.
  - reflexivity.
  - vm_compute. reflexivity.
  - vm_compute. reflexivity.
  - reflexivity.
  - reflexivity.
  - cbn. lia.
  - reflexivity.
  - reflexivity.
  - intros d'. discriminate.
Defined.

Lemma X4_witness :
  place_step unit (Scenario.serve Scenario.two_pages) Scenario.cfg
    Scenario.place_low Scenario.st0 = (Ok None, Scenario.st0)
  /\ forall rest acc fetched,
       for_places unit (Scenario.serve Scenario.two_pages) Scenario.cfg
         (Scenario.place_low :: rest) acc fetched Scenario.st0
       = for_places unit (Scenario.serve Scenario.two_pages) Scenario.cfg
           rest acc fetched Scenario.st0.
Proof.
  apply (X4_rejected_place_costs_nothing unit (Scenario.serve Scenario.two_pages)
           Scenario.cfg Scenario.place_low Scenario.st0 (JInt 3)
           (Finite (inject_Z 3))).
  - reflexivity.
  - reflexivity.
  - left. vm_compute. reflexivity.
Defined.

Lemma X5_witness :
  place_step unit (Scenario.serve Scenario.two_pages) Scenario.cfg
    ScenarioMore.place_null_rating Scenario.st0
  = (Raise (TypeError
              "'<' not supported between instances of 'NoneType' and 'float'"),
     Scenario.st0)
  /\ place_step unit (Scenario.serve Scenario.two_pages) Scenario.cfg
       ScenarioMore.place_text_price Scenario.st0
     = (Raise (TypeError
                 "'>' not supported between instances of 'str' and 'int'"),
        Scenario.st0).
Proof.
  split.
  - destruct (X5_non_numeric_rating_raises unit (Scenario.serve Scenario.two_pages)
                Scenario.cfg ScenarioMore.place_null_rating Scenario.st0 JNull
                eq_refl) as [H _].
    apply H. reflexivity.
  - destruct (X5_non_numeric_rating_raises unit (Scenario.serve Scenario.two_pages)
                Scenario.cfg ScenarioMore.place_text_price Scenario.st0 (JInt 5)
                eq_refl) as [_ H].
    apply (H (JStr "2") (Finite (inject_Z 5))).
    + reflexivity.
    + vm_compute. discriminate.
    + reflexivity.
    + reflexivity.
Defined.

Lemma X6_witness :
  search_results unit (Scenario.serve Scenario.two_pages)
    ScenarioMore.cfg_negative_results 0 Scenario.st0
  = Some (Message "No results found.",
          set_status unit "No results found." Scenario.st0).
Proof.
  apply (X6_negative_max_results unit (Scenario.serve Scenario.two_pages)
           ScenarioMore.cfg_negative_results 0 Scenario.st0).
  reflexivity.
Defined.

Lemma X7_witness :
  exists df st' rest,
    search_results unit (Scenario.serve Scenario.two_pages) Scenario.cfg 5
      Scenario.st0 = Some (df, st')
    /\ trace st'
       = EvGet (TextSearch Scenario.first_request)
           (Scenario.two_pages (TextSearch Scenario.first_request)) :: rest
    /\ exists tok,
         truthy tok = true
         /\ Scenario.second_request = PageToken tok (api_key Scenario.cfg).
Proof.
  destruct (X7_query_first_then_tokens unit (Scenario.serve Scenario.two_pages)
              Scenario.cfg 5 Scenario.st0 _ _ eq_refl) as [added [Ht [Hpos _]]].
  destruct Hpos as [o [rest [Hadded Hlater]]]; [vm_compute; discriminate|].
  eexists. eexists. exists rest. split; [reflexivity|].
  cbn [trace Scenario.st0 app] in Ht.
  assert (Hrest : rest = Scenario.between_requests
                         ++ EvGet (TextSearch Scenario.second_request)
                              (Scenario.two_pages
                                 (TextSearch Scenario.second_request))
                         :: Scenario.after_requests).
  { rewrite Hadded in Ht. vm_compute in Ht. inversion Ht. reflexivity. }
  split.
  - rewrite Hadded in Ht. vm_compute in Ht. inversion Ht. vm_compute. reflexivity.
  - exact (Hlater _ _ _ _ Hrest).
Defined.

Lemma X8_witness :
  exists df st',
    search_results unit (Scenario.serve Scenario.two_pages) Scenario.cfg 5
      Scenario.st0 = Some (df, st')
    /\ exists added,
         trace st' = trace Scenario.st0 ++ added
         /\ More.count More.is_details added = List.length (result_rows df)
         /\ More.count More.is_website added
            = List.length
                (filter (fun row => (scrape_emails Scenario.cfg
                                     && truthy (website row))%bool)
                        (result_rows df))
         /\ More.count More.is_sleep added
            = Nat.pred (More.count Spec.is_search added)
         /\ (result_rows df <> [] -> 1 <= More.count Spec.is_search added).
Proof.
  eexists. eexists. split; [vm_compute; reflexivity|].
  apply (X8_request_budget unit (Scenario.serve Scenario.two_pages) Scenario.cfg
           5 Scenario.st0 _ _ eq_refl).
  intros msg. discriminate.
Defined.

Lemma X9_witness :
  exists df st',
    search_results unit (Scenario.serve Scenario.two_pages) Scenario.cfg 5
      Scenario.st0 = Some (df, st')
    /\ exists added chosen,
         trace st' = trace Scenario.st0 ++ added
         /\ More.subseq chosen (More.received added)
         /\ Forall2 More.row_of chosen (result_rows df).
Proof.
  eexists. eexists. split; [vm_compute; reflexivity|].
  apply (X9_rows_follow_upstream_order unit (Scenario.serve Scenario.two_pages)
           Scenario.cfg 5 Scenario.st0 _ _ eq_refl).
  intros msg. discriminate.
Defined.

Lemma X10_witness :
  exists df st',
    search_results unit (Scenario.serve Scenario.two_pages) Scenario.cfg_zero 5
      Scenario.st0 = Some (df, st')
    /\ (exists added,
          trace st' = trace Scenario.st0 ++ added
          /\ Forall (fun ev => More.is_website ev = false) added)
    /\ Forall (fun row => emails row = None) (result_rows df).
Proof.
  eexists. eexists. split; [vm_compute; reflexivity|].
  apply (X10_scraping_off unit (Scenario.serve Scenario.two_pages)
           Scenario.cfg_zero 5 Scenario.st0 _ _ eq_refl eq_refl).
Defined.

Lemma X11_witness :
  exists rows st',
    search_results unit (Scenario.serve Scenario.two_pages) Scenario.cfg 5
      Scenario.st0 = Some (Table rows, st')
    /\ rows <> [] /\ status st' = status Scenario.st0.
Proof.
  eexists. eexists. split; [vm_compute; reflexivity|].
  apply (X11_status_written_with_messages_only unit
           (Scenario.serve Scenario.two_pages) Scenario.cfg 5 Scenario.st0
           _ (Table _) eq_refl).
Defined.

Lemma X12_witness :
  NoDup (Emails.valid_emails 3 Scenario.site_text)
  /\ (In "q@w.er" (Emails.valid_emails 3 Scenario.site_text)
      <-> In "q@w.er" (Re.findall Scenario.site_text)
          /\ ~ Spec.denylisted "q@w.er").
Proof.
  destruct (TextMore.X12_nothing_valid_is_lost 3 Scenario.site_text) as [Hnd H].
  split; [exact Hnd|].
  apply H. vm_compute. discriminate.
Defined.

Lemma X14_witness :
  More.split_comma_space "Bob@x.com, bob@x.com, q@w.er"
  = Emails.valid_emails 3 Scenario.site_text.
Proof.
  apply (TextMore.X14_field_splits_back 3 Scenario.site_text).
  vm_compute. reflexivity.
Defined.

Lemma X15_witness : Re.findall "info@site.org" = ["info@site.org"].
Proof.
  apply ReMore.X15_standalone_address_found.
  - exists (list_ascii_of_string "info"), (list_ascii_of_string "site"),
      (list_ascii_of_string "org").
    split; [reflexivity|]. split; [discriminate|]. split; [reflexivity|].
    split; [discriminate|]. split; [reflexivity|]. split; [cbn; lia | reflexivity].
  - reflexivity.
Defined.

Lemma X16_witness :
  exists df st' added,
    search_results unit (Scenario.serve Scenario.nothing) Scenario.cfg 1
      Scenario.st0 = Some (df, st')
    /\ trace st' = trace Scenario.st0 ++ added
    /\ More.count Spec.is_search added <= 1.
Proof.
  apply (X16_no_cursor_ends_run unit (Scenario.serve Scenario.nothing)
           Scenario.cfg 0 Scenario.st0).
  intros tok H. vm_compute in H. inversion H. reflexivity.
Defined.

Lemma X13_witness :
  Emails.of_text 0 Scenario.site_text = None
  /\ Z.of_nat (List.length (Emails.valid_emails (-1) Scenario.site_text)) = 2%Z.
Proof.
  split.
  - destruct (TextMore.X13_number_of_addresses 0 Scenario.site_text) as [_ H].
    apply H. vm_compute. reflexivity.
  - destruct (TextMore.X13_number_of_addresses (-1) Scenario.site_text) as [H _].
    rewrite H. vm_compute. reflexivity.
Defined.
